(** * Task Tracker (tt): a shallow embedding of [src/main.cpp]

    The program is a one-shot command-line tool over a flat file
    [tasks.tsv].  Every function of [main.cpp] is translated below as a
    Rocq function of the same name; the data file is an explicit
    [option string] (absent, or its contents) that [main] receives and
    returns, and the two output streams are strings of the outcome.
    An exception that leaves [main] uncaught (only [std::stoi] inside
    [load_tasks] can raise one) is the outcome status [Uncaught]. *)

From Stdlib Require Import ZArith Lia List Bool Ascii String.
From Stdlib Require Import Permutation Sorted.
Import ListNotations.

#[local] Open Scope string_scope.
#[local] Open Scope Z_scope.

(** ** Characters and the [<cctype>] helpers (the "C" locale) *)

Definition TAB : ascii := "009"%char.
Definition LF  : ascii := "010"%char.
Definition VT  : ascii := "011"%char.
Definition FF  : ascii := "012"%char.
Definition CR  : ascii := "013"%char.
Definition NUL : ascii := "000"%char.

Definition code (c : ascii) : Z := Z.of_N (N_of_ascii c).

(** [std::isdigit] *)
Definition isdigit (c : ascii) : bool :=
  (code "0" <=? code c) && (code c <=? code "9").

(** [std::isspace], which [std::stoi] (through [strtol]) uses to skip
    leading blanks. *)
Definition isspace (c : ascii) : bool :=
  Ascii.eqb c " " || ((code TAB <=? code c) && (code c <=? code CR)).

(** [std::toupper] *)
Definition toupper (c : ascii) : ascii :=
  if (code "a" <=? code c) && (code c <=? code "z")
  then ascii_of_N (Z.to_N (code c - 32))
  else c.

(** ** [std::string] helpers *)

Fixpoint mem_char (c : ascii) (set : string) : bool :=
  match set with
  | "" => false
  | String d r => Ascii.eqb c d || mem_char c r
  end.

(** [s.find_first_not_of(set)]; [None] is [npos]. *)
Fixpoint find_first_not_of (set s : string) : option nat :=
  match s with
  | "" => None
  | String c r =>
      if mem_char c set then option_map S (find_first_not_of set r)
      else Some 0%nat
  end.

(** [s.find_last_not_of(set)]; [None] is [npos]. *)
Fixpoint find_last_not_of (set s : string) : option nat :=
  match s with
  | "" => None
  | String c r =>
      match find_last_not_of set r with
      | Some i => Some (S i)
      | None => if mem_char c set then None else Some 0%nat
      end
  end.

(** The blank characters of [trim]: [" \t\n\r"]. *)
Definition blanks : string := String " " (String TAB (String LF (String CR ""))).

Definition trim (s : string) : string :=
  match find_first_not_of blanks s with
  | None => ""
  | Some b =>
      match find_last_not_of blanks s with
      | None => ""
      | Some e => substring b (e - b + 1) s
      end
  end.

(** The loop of [is_valid_date], from index [i] on. *)
Fixpoint date_digits (i : nat) (d : string) : bool :=
  match d with
  | "" => true
  | String c r =>
      if Nat.eqb i 4 || Nat.eqb i 7 then date_digits (S i) r
      else if isdigit c then date_digits (S i) r
      else false
  end.

Definition char_at (i : nat) (s : string) : ascii :=
  match String.get i s with Some c => c | None => NUL end.

Definition is_valid_date (d : string) : bool :=
  if negb (Nat.eqb (String.length d) 10)
     || negb (Ascii.eqb (char_at 4 d) "-")
     || negb (Ascii.eqb (char_at 7 d) "-")
  then false
  else date_digits 0 d.

Definition prio_weight (p : ascii) : Z :=
  if Ascii.eqb p "H" then 0
  else if Ascii.eqb p "M" then 1
  else if Ascii.eqb p "L" then 2
  else 1.

(** ** Integers: [int] is 32 bits *)

Definition INT_MAX : Z := 2147483647.
Definition INT_MIN : Z := -2147483648.

Definition in_int (n : Z) : bool := (INT_MIN <=? n) && (n <=? INT_MAX).

(** Two's-complement wrap-around of an [int] result. *)
Definition wrap_int (n : Z) : Z := (n - INT_MIN) mod 2 ^ 32 + INT_MIN.

Definition digit_val (c : ascii) : Z := code c - code "0".

Definition digit_char (d : Z) : ascii := ascii_of_N (Z.to_N (code "0" + d)).

(** The digits that [strtol] consumes: the longest prefix of decimal
    digits, accumulated in base ten from [acc]. *)
Fixpoint stoi_digits (s : string) (acc : Z) : Z :=
  match s with
  | "" => acc
  | String c r =>
      if isdigit c then stoi_digits r (10 * acc + digit_val c) else acc
  end.

Fixpoint skip_space (s : string) : string :=
  match s with
  | "" => ""
  | String c r => if isspace c then skip_space r else s
  end.

Definition starts_with_digit (s : string) : bool :=
  match s with
  | "" => false
  | String c _ => isdigit c
  end.

(** [std::stoi(s)]: leading blanks are skipped, one sign is accepted,
    then the digits; what follows the digits is ignored.  [None] stands
    for the two exceptions ([std::invalid_argument] when no digit is
    there, [std::out_of_range] when the value is no [int]). *)
Definition stoi (s : string) : option Z :=
  let s1 := skip_space s in
  let '(neg, s2) :=
    match s1 with
    | String c r =>
        if Ascii.eqb c "-" then (true, r)
        else if Ascii.eqb c "+" then (false, r)
        else (false, s1)
    | "" => (false, s1)
    end in
  if starts_with_digit s2 then
    let n := stoi_digits s2 0 in
    let v := if neg then - n else n in
    if in_int v then Some v else None
  else None.

(** [out << n] for an [int]: the decimal digits, most significant
    first, written from the least significant one back. *)
Fixpoint digits_of (fuel : nat) (n : Z) (acc : string) : string :=
  match fuel with
  | O => acc
  | S f =>
      let acc' := String (digit_char (n mod 10)) acc in
      if n <? 10 then acc' else digits_of f (n / 10) acc'
  end.

Definition string_of_nat_Z (n : Z) : string :=
  digits_of (S (Z.to_nat (Z.log2 n))) n "".

Definition string_of_int (n : Z) : string :=
  if n <? 0 then String "-" (string_of_nat_Z (- n)) else string_of_nat_Z n.

(** ** The task record *)

Record Task : Type := mkTask {
  id : Z;
  done : bool;
  priority : ascii;
  due : option string;
  title : string
}.

(** ** Storage *)

Definition SEP : ascii := "|"%char.

Fixpoint replace_char (a b : ascii) (s : string) : string :=
  match s with
  | "" => ""
  | String c r => String (if Ascii.eqb c a then b else c) (replace_char a b r)
  end.

(** [out.erase(std::remove(out.begin(), out.end(), a), out.end())] *)
Fixpoint remove_char (a : ascii) (s : string) : string :=
  match s with
  | "" => ""
  | String c r =>
      if Ascii.eqb c a then remove_char a r else String c (remove_char a r)
  end.

Definition encode_field (s : string) : string :=
  remove_char CR (remove_char LF (replace_char SEP "/" s)).

(** One call of [std::getline(is, cur, delim)] on the rest [s] of a
    stream: [None] when nothing is left (the stream fails), else the
    characters before the first [delim] and the rest after it. *)
Fixpoint read_until (delim : ascii) (s : string) : string * string :=
  match s with
  | "" => ("", "")
  | String c r =>
      if Ascii.eqb c delim then ("", r)
      else let '(l, rest) := read_until delim r in (String c l, rest)
  end.

Definition getline (delim : ascii) (s : string) : option (string * string) :=
  match s with
  | "" => None
  | _ => Some (read_until delim s)
  end.

(** [while (std::getline(is, cur, delim)) parts.push_back(cur);] in one
    pass over the characters ([getlines_unfold] below relates it to
    [getline]). *)
Fixpoint getlines (delim : ascii) (s : string) : list string :=
  match s with
  | "" => []
  | String c r =>
      if Ascii.eqb c delim then "" :: getlines delim r
      else
        match getlines delim r with
        | [] => [String c ""]
        | cur :: parts => String c cur :: parts
        end
  end.

Definition split (line : string) (delim : ascii) : list string :=
  getlines delim line.

(** [parts[i]] *)
Definition part (i : nat) (parts : list string) : string := nth i parts "".

(** The body of the loop of [load_tasks] on one line, given the vector
    [v] read so far; [None] is the exception of [std::stoi]. *)
Definition load_line (line : string) (v : list Task) : option (list Task) :=
  if String.eqb (trim line) "" then Some v
  else
    let parts := split line SEP in
    if (List.length parts <? 5)%nat then Some v
    else
      match stoi (part 0 parts) with
      | None => None
      | Some n =>
          Some (v ++ [ {| id := n;
                          done := String.eqb (part 1 parts) "1";
                          priority := match part 2 parts with
                                      | "" => "M"%char
                                      | String c _ => c
                                      end;
                          due := if String.eqb (part 3 parts) "-" then None
                                 else Some (part 3 parts);
                          title := part 4 parts |} ])%list
      end.

Fixpoint load_loop (lines : list string) (v : list Task) : option (list Task) :=
  match lines with
  | [] => Some v
  | line :: rest =>
      match load_line line v with
      | None => None
      | Some v' => load_loop rest v'
      end
  end.

(** [load_tasks()]: the file is absent ([None]) or has contents. *)
Definition load_tasks (file : option string) : option (list Task) :=
  match file with
  | None => Some []
  | Some content => load_loop (getlines LF content) []
  end.

(** The five fields that [save_tasks] writes for a task, in order. *)
Definition fields (t : Task) : list string :=
  [ string_of_int (id t);
    String (if done t then "1" else "0")%char "";
    String (priority t) "";
    match due t with Some d => d | None => "-" end;
    encode_field (title t) ].

(** What one iteration of [save_tasks] writes: the fields with [SEP]
    between them ([encode_body]), then the newline. *)
Definition encode_body (t : Task) : string :=
  String.concat (String SEP "") (fields t).

Definition encode_task (t : Task) : string :=
  encode_body t ++ String LF "".

(** [save_tasks(v)]: the new contents of the file. *)
Fixpoint save_tasks (v : list Task) : string :=
  match v with
  | [] => ""
  | t :: r => encode_task t ++ save_tasks r
  end.

(** The loop of [next_id], from the running maximum [m]. *)
Fixpoint max_loop (m : Z) (v : list Task) : Z :=
  match v with
  | [] => m
  | t :: r => max_loop (Z.max m (id t)) r
  end.

(** [m + 1] is an [int] addition: past [INT_MAX], where C++ leaves the
    result undefined, the model takes the wrap-around of the machine. *)
Definition next_id (v : list Task) : Z := wrap_int (max_loop 0 v + 1).

(** ** Printing *)

Fixpoint spaces (n : nat) : string :=
  match n with
  | O => ""
  | S k => String " " (spaces k)
  end.

(** [std::setw(w)] before one right-aligned field. *)
Definition setw (w : nat) (s : string) : string :=
  spaces (w - String.length s) ++ s.

Definition print_task (t : Task) : string :=
  setw 3 (string_of_int (id t)) ++ "  "
    ++ (if done t then "[x]" else "[ ]") ++ "  "
    ++ String (priority t) "  "
    ++ (match due t with Some d => d | None => "--" end) ++ "  "
    ++ title t ++ String LF "".

(** ** Listing *)

Inductive ListFilter : Type := All | Pending | Done.

Definition is_pending (f : ListFilter) : bool :=
  match f with Pending => true | _ => false end.

Definition is_done (f : ListFilter) : bool :=
  match f with Done => true | _ => false end.

Definition due_or_sentinel (t : Task) : string :=
  match due t with Some d => d | None => "9999-99-99" end.

(** The tail of the comparator, after the branch on [sort_key]. *)
Definition less_tail (a b : Task) : bool :=
  let ad := due_or_sentinel a in
  let bd := due_or_sentinel b in
  if negb (String.eqb ad bd) then String.ltb ad bd
  else
    let aw := prio_weight (priority a) in
    let bw := prio_weight (priority b) in
    if negb (aw =? bw) then aw <? bw
    else id a <? id b.

(** The lambda given to [std::stable_sort] in [list_cmd]. *)
Definition task_less (sort_key : string) (a b : Task) : bool :=
  if negb (Bool.eqb (done a) (done b)) then negb (done a)
  else if String.eqb sort_key "due" then
    let ad := due_or_sentinel a in
    let bd := due_or_sentinel b in
    if negb (String.eqb ad bd) then String.ltb ad bd else less_tail a b
  else if String.eqb sort_key "priority" then
    let aw := prio_weight (priority a) in
    let bw := prio_weight (priority b) in
    if negb (aw =? bw) then aw <? bw else less_tail a b
  else if String.eqb sort_key "id" then
    if negb (id a =? id b) then id a <? id b else less_tail a b
  else less_tail a b.

(** [std::stable_sort(first, last, less)].  The standard fixes its
    result, not its algorithm: the sorted permutation that keeps
    equivalent elements in their input order.  The model is the
    insertion that the library uses on short ranges: an element moves
    left past the elements that are strictly greater.  The theorems
    [stable_sort_perm], [stable_sort_sorted], [stable_sort_stable] and
    [stable_sorted_unique] show that any other algorithm meeting the
    standard returns the same list. *)
Section StableSort.
Context {A : Type} (less : A -> A -> bool).

Fixpoint insert_left (x : A) (l : list A) : list A :=
  match l with
  | [] => [x]
  | y :: r => if less y x then y :: insert_left x r else x :: l
  end.

Fixpoint stable_sort (l : list A) : list A :=
  match l with
  | [] => []
  | x :: r => insert_left x (stable_sort r)
  end.
End StableSort.

(** The printing loop of [list_cmd], with its two [continue]s. *)
Fixpoint list_loop (filter : ListFilter) (v : list Task) : string :=
  match v with
  | [] => ""
  | t :: r =>
      if is_pending filter && done t then list_loop filter r
      else if is_done filter && negb (done t) then list_loop filter r
      else print_task t ++ list_loop filter r
  end.

(** [list_cmd(filter, sort_key)]: what goes to the standard output, or
    [None] when [load_tasks] throws. *)
Definition list_cmd (filter : ListFilter) (sort_key : string)
    (file : option string) : option string :=
  match load_tasks file with
  | None => None
  | Some v => Some (list_loop filter (stable_sort (task_less sort_key) v))
  end.

(** [s << "\n"] *)
Definition line (s : string) : string := s ++ String LF "".

Definition help : string :=
  line "Task Tracker (tt)" ++ line ""
    ++ line "Usage:"
    ++ line "  tt add <title words...> [-p H|M|L] [-d YYYY-MM-DD]"
    ++ line "  tt list [--all|--pending|--done] [--sort=due|priority|id]"
    ++ line "  tt done <id>"
    ++ line "  tt rm <id>"
    ++ line "  tt clear [--done|--all]"
    ++ line "  tt help" ++ line ""
    ++ line "Notes:"
    ++ line "  - Default 'tt list' now shows ALL tasks. Completed ones display as [x]."
    ++ line "  - Use --pending to show only pending, or --done to show only completed."
    ++ line ""
    ++ line "Data file: tasks.tsv (in current directory)".

(** [parse_int]: the exceptions of [std::stoi] become [-1]. *)
Definition parse_int (s : string) : Z :=
  match stoi s with Some n => n | None => -1 end.

(** ** The process: [main] *)

(** How the process ends: [return code] from [main], or an exception
    that nothing catches ([std::terminate]). *)
Inductive status : Type :=
  | Exit (code : Z)
  | Uncaught.

Record outcome : Type := mkOutcome {
  exit_status : status;
  file_after : option string;
  stdout : string;
  stderr : string
}.

Definition fail (file : option string) (msg : string) : outcome :=
  mkOutcome (Exit 1) file "" msg.

(** The class of the exception that [std::stoi] throws on [s], when it
    throws: [std::invalid_argument] when no digit is read,
    [std::out_of_range] when the digits give no [int]. *)
Definition stoi_exception (s : string) : string :=
  let s1 := skip_space s in
  let s2 :=
    match s1 with
    | String c r =>
        if Ascii.eqb c "-" then r else if Ascii.eqb c "+" then r else s1
    | "" => s1
    end in
  if starts_with_digit s2 then "std::out_of_range"
  else "std::invalid_argument".

(** The exception that leaves [load_tasks]: the one of the first line
    on which [std::stoi] throws. *)
Fixpoint load_exception (lines : list string) : option string :=
  match lines with
  | [] => None
  | l :: rest =>
      match load_line l [] with
      | None => Some (stoi_exception (part 0 (split l SEP)))
      | Some _ => load_exception rest
      end
  end.

(** What the runtime writes to the error stream when the exception of
    [load_tasks] reaches [std::terminate], in the words of the GNU C++
    runtime; [what()] of both exceptions of [std::stoi] is ["stoi"]. *)
Definition terminate_message (file : option string) : string :=
  match file with
  | None => ""
  | Some content =>
      match load_exception (getlines LF content) with
      | None => ""
      | Some e =>
          line ("terminate called after throwing an instance of '" ++ e ++ "'")
            ++ line "  what():  stoi"
      end
  end.

(** [std::terminate] after the exception of [load_tasks]: nothing was
    written to the standard output before it, and the runtime writes
    its message to the error stream. *)
Definition terminate (file : option string) : outcome :=
  mkOutcome Uncaught file "" (terminate_message file).

(** [!a.empty() && a[0] == '-'] *)
Definition flag_like (a : string) : bool :=
  negb (String.eqb a "") && Ascii.eqb (char_at 0 a) "-".

(** [pr != 'H' && pr != 'M' && pr != 'L'] *)
Definition not_HML (pr : ascii) : bool :=
  negb (Ascii.eqb pr "H") && negb (Ascii.eqb pr "M") && negb (Ascii.eqb pr "L").

(** The argument loop of [add], from [argv[i]] on: the error message, or
    the priority, due date and title parts.  [a == "-p" && i + 1 < argc]
    holds when [a] is ["-p"] and another argument follows. *)
Fixpoint add_loop (args : list string) (pr : ascii) (due : option string)
    (title_parts : list string)
    : string + (ascii * option string * list string) :=
  match args with
  | [] => inr (pr, due, title_parts)
  | a :: rest =>
      match rest with
      | val :: rest' =>
          if String.eqb a "-p" then
            let pr' := toupper (char_at 0 val) in
            if not_HML pr'
            then inl (line "Invalid priority. Use H/M/L.")
            else add_loop rest' pr' due title_parts
          else if String.eqb a "-d" then
            if negb (is_valid_date val)
            then inl (line "Invalid date, expected YYYY-MM-DD.")
            else add_loop rest' pr (Some val) title_parts
          else if flag_like a
          then inl (line ("Unknown flag: " ++ a))
          else add_loop rest pr due (title_parts ++ [a])%list
      | [] =>
          if flag_like a
          then inl (line ("Unknown flag: " ++ a))
          else inr (pr, due, (title_parts ++ [a])%list)
      end
  end.

(** The loop that joins the title parts, from index [i] on. *)
Fixpoint join_loop (i : nat) (title_parts : list string) (title : string)
    : string :=
  match title_parts with
  | [] => title
  | p :: r =>
      join_loop (S i) r ((if Nat.eqb i 0 then title else title ++ " ") ++ p)
  end.

Definition cmd_add (args : list string) (file : option string) : outcome :=
  match args with
  | [] => fail file (line "Error: title required.")
  | _ =>
      match add_loop args "M" None [] with
      | inl msg => fail file msg
      | inr (pr, due, title_parts) =>
          match title_parts with
          | [] => fail file (line "Error: title required.")
          | _ =>
              let title := join_loop 0 title_parts "" in
              match load_tasks file with
              | None => terminate file
              | Some v =>
                  let t := {| id := next_id v; done := false; priority := pr;
                              due := due; title := trim title |} in
                  let v' := (v ++ [t])%list in
                  mkOutcome (Exit 0) (Some (save_tasks v'))
                    (line ("Added task #" ++ string_of_int (id (last v' t))))
                    ""
              end
          end
      end
  end.

(** The argument loop of [list]. *)
Fixpoint list_args (args : list string) (filter : ListFilter)
    (sort_key : string) : string + (ListFilter * string) :=
  match args with
  | [] => inr (filter, sort_key)
  | a :: rest =>
      if String.eqb a "--all" then list_args rest All sort_key
      else if String.eqb a "--pending" then list_args rest Pending sort_key
      else if String.eqb a "--done" then list_args rest Done sort_key
      else if prefix "--sort=" a
      then list_args rest filter (substring 7 (String.length a - 7) a)
      else inl (line ("Unknown arg: " ++ a))
  end.

Definition cmd_list (args : list string) (file : option string) : outcome :=
  match list_args args All "due" with
  | inl msg => fail file msg
  | inr (filter, sort_key) =>
      match list_cmd filter sort_key file with
      | None => terminate file
      | Some rows => mkOutcome (Exit 0) file rows ""
      end
  end.

(** [t.done = true] *)
Definition set_done (t : Task) : Task :=
  {| id := id t; done := true; priority := priority t; due := due t;
     title := title t |}.

(** The loop of [done]: the first task with the id is marked, then
    [break]; [None] when [found] stays false. *)
Fixpoint mark_done (n : Z) (v : list Task) : option (list Task) :=
  match v with
  | [] => None
  | t :: r =>
      if id t =? n
      then Some (set_done t :: r)
      else option_map (cons t) (mark_done n r)
  end.

Definition cmd_done (args : list string) (file : option string) : outcome :=
  match args with
  | [] => fail file (line "Usage: tt done <id>")
  | a :: _ =>
      let n := parse_int a in
      if n <? 0 then fail file (line "Invalid id.")
      else
        match load_tasks file with
        | None => terminate file
        | Some v =>
            match mark_done n v with
            | None => fail file (line "Task not found.")
            | Some v' =>
                mkOutcome (Exit 0) (Some (save_tasks v'))
                  (line ("Marked #" ++ string_of_int n ++ " done.")) ""
            end
        end
  end.

(** [std::remove_if] followed by [erase]: the elements that stay. *)
Definition remove_if {A : Type} (p : A -> bool) (v : list A) : list A :=
  filter (fun x => negb (p x)) v.

Definition cmd_rm (args : list string) (file : option string) : outcome :=
  match args with
  | [] => fail file (line "Usage: tt rm <id>")
  | a :: _ =>
      let n := parse_int a in
      if n <? 0 then fail file (line "Invalid id.")
      else
        match load_tasks file with
        | None => terminate file
        | Some v =>
            let v' := remove_if (fun t => id t =? n) v in
            (* it == v.end() *)
            if Nat.eqb (List.length v') (List.length v)
            then fail file (line "Task not found.")
            else mkOutcome (Exit 0) (Some (save_tasks v'))
                   (line ("Removed #" ++ string_of_int n ++ ".")) ""
        end
  end.

(** The argument loop of [clear]. *)
Fixpoint clear_args (args : list string) (clear_all : bool) : string + bool :=
  match args with
  | [] => inr clear_all
  | a :: rest =>
      if String.eqb a "--all" then clear_args rest true
      else if String.eqb a "--done" then clear_args rest clear_all
      else inl (line ("Unknown arg: " ++ a))
  end.

Definition cmd_clear (args : list string) (file : option string) : outcome :=
  match clear_args args false with
  | inl msg => fail file msg
  | inr clear_all =>
      match load_tasks file with
      | None => terminate file
      | Some v =>
          let v' := if clear_all then [] else remove_if done v in
          mkOutcome (Exit 0) (Some (save_tasks v'))
            (line (if clear_all then "Cleared all tasks."
                   else "Cleared completed tasks.")) ""
      end
  end.

(** [main(argc, argv)]: [argv] with the program name first, and the
    data file before the call. *)
Definition main (argv : list string) (file : option string) : outcome :=
  match argv with
  | [] | [_] => mkOutcome (Exit 0) file help ""
  | _ :: cmd :: args =>
      if String.eqb cmd "help" || String.eqb cmd "-h" || String.eqb cmd "--help"
      then mkOutcome (Exit 0) file help ""
      else if String.eqb cmd "add" then cmd_add args file
      else if String.eqb cmd "list" then cmd_list args file
      else if String.eqb cmd "done" then cmd_done args file
      else if String.eqb cmd "rm" then cmd_rm args file
      else if String.eqb cmd "clear" then cmd_clear args file
      else fail file (line "Unknown command. Try 'tt help'.")
  end.

(** ** Sample data *)

Definition file1 : string :=
  line "1|1|M|2024-01-01|pay rent" ++ line "2|0|H|2024-01-02|buy milk"
    ++ line "3|0|L|-|call home".

Definition tasks_2_7_4 : list Task :=
  [mkTask 2 false "M" None "a"; mkTask 7 true "H" None "b";
   mkTask 4 false "L" None "c"].

(** [add_at args rest pr du parts]: the loop of [add] over [args] gets
    to the arguments [rest] with the priority [pr], the due date [du]
    and the title parts [parts], no error so far. *)
Inductive add_at (args : list string)
    : list string -> ascii -> option string -> list string -> Prop :=
  | add_at_start : add_at args args "M" None []
  | add_at_word a rest pr du parts :
      add_at args (a :: rest) pr du parts ->
      flag_like a = false ->
      add_at args rest pr du (parts ++ [a])
  | add_at_prio val rest pr du parts :
      add_at args ("-p" :: val :: rest) pr du parts ->
      not_HML (toupper (char_at 0 val)) = false ->
      add_at args rest (toupper (char_at 0 val)) du parts
  | add_at_due val rest pr du parts :
      add_at args ("-d" :: val :: rest) pr du parts ->
      is_valid_date val = true ->
      add_at args rest pr (Some val) parts.


(** ** Vocabulary of the statements *)

(** Every character of [s] satisfies [p]. *)
Fixpoint string_forall (p : ascii -> bool) (s : string) : bool :=
  match s with
  | "" => true
  | String c r => p c && string_forall p r
  end.

(** [c] does not occur in [s]. *)
Definition free_of (c : ascii) (s : string) : Prop := mem_char c s = false.

Definition digit_or_minus (c : ascii) : bool := isdigit c || Ascii.eqb c "-".

(** A line that [load_tasks] skips as blank: only characters of
    [blanks]. *)
Definition is_blank (s : string) : bool :=
  string_forall (fun c => mem_char c blanks) s.

(** The task as it comes back from the file: the title is the one that
    [encode_field] wrote. *)
Definition stored (t : Task) : Task :=
  {| id := id t; done := done t; priority := priority t; due := due t;
     title := encode_field (title t) |}.

(** What [save_tasks] needs of the priority and the due date to write
    them so that they can be read back: the priority is neither the
    delimiter nor a newline, and a due date holds neither and is not
    the mark ["-"] of an absent date. *)
Definition plain_fields (t : Task) : Prop :=
  priority t <> SEP /\ priority t <> LF
  /\ match due t with
     | None => True
     | Some d => free_of SEP d /\ free_of LF d /\ d <> "-"
     end.

(** What [load_tasks] guarantees of the fields other than the title:
    the above, and an id that is an [int]. *)
Definition fields_ok (t : Task) : Prop :=
  in_int (id t) = true /\ plain_fields t.

(** The title is written as a field that is not empty. *)
Definition titled (t : Task) : bool :=
  negb (String.eqb (encode_field (title t)) "").

Definition task_untitled : Task := mkTask 1 false "M" None "".

Definition task_milk : Task := mkTask 2 false "H" (Some "2024-01-02") "buy milk".

(** ** [load_tasks], as the specification words it *)

(** A line is decoded when it is not blank and has five fields or
    more. *)
Definition kept (l : string) : bool :=
  negb (is_blank l) && (5 <=? List.length (split l SEP))%nat.

(** Decoding of a line into a task; [None] when the id is not read. *)
Definition decode (l : string) : option Task :=
  let parts := split l SEP in
  match stoi (part 0 parts) with
  | None => None
  | Some n =>
      Some {| id := n;
              done := String.eqb (part 1 parts) "1";
              priority := match part 2 parts with
                          | "" => "M"%char
                          | String c _ => c
                          end;
              due := if String.eqb (part 3 parts) "-" then None
                     else Some (part 3 parts);
              title := part 4 parts |}
  end.

(** The tasks of the lines, in order, unless one id is not read. *)
Fixpoint decode_all (lines : list string) : option (list Task) :=
  match lines with
  | [] => Some []
  | l :: r =>
      match decode l with
      | None => None
      | Some t => option_map (cons t) (decode_all r)
      end
  end.

Definition file_bad_id : string := line "1|0|M|-|first" ++ line "x|0|M|-|second".

Definition file_six_fields : string := line "1|0|M|-||x".

Definition file_negative_id : string := line "-5|0|M|-|x".

(** ** The order of [list], as the specification words it *)

(** Lexicographic combination: the second comparison breaks the ties
    of the first. *)
Definition lex (c1 c2 : comparison) : comparison :=
  match c1 with Eq => c2 | _ => c1 end.

(** 1. Incomplete tasks before completed ones. *)
Definition compare_done (a b : Task) : comparison :=
  match done a, done b with
  | false, true => Lt
  | true, false => Gt
  | _, _ => Eq
  end.

(** The due date that counts in the order: an absent one counts as
    ["9999-99-99"]. *)
Definition spec_due (t : Task) : string :=
  match due t with
  | None => "9999-99-99"
  | Some d => d
  end.

(** The weight of a priority: H = 0, M = 1, L = 2; a character that is
    none of the three weighs as M. *)
Definition spec_weight (p : ascii) : Z :=
  match p with
  | "H"%char => 0
  | "L"%char => 2
  | _ => 1
  end.

(** Due dates as strings, an absent one as ["9999-99-99"]. *)
Definition compare_due (a b : Task) : comparison :=
  String.compare (spec_due a) (spec_due b).

(** Priorities by weight: H = 0, M = 1, L = 2. *)
Definition compare_weight (a b : Task) : comparison :=
  Z.compare (spec_weight (priority a)) (spec_weight (priority b)).

Definition compare_id (a b : Task) : comparison := Z.compare (id a) (id b).

(** 2. The requested key; any other key skips the step. *)
Definition compare_key (sort_key : string) (a b : Task) : comparison :=
  if String.eqb sort_key "due" then compare_due a b
  else if String.eqb sort_key "priority" then compare_weight a b
  else if String.eqb sort_key "id" then compare_id a b
  else Eq.

(** 3. Then always the due date, the weight and the id. *)
Definition spec_compare (sort_key : string) (a b : Task) : comparison :=
  lex (compare_done a b)
    (lex (compare_key sort_key a b)
       (lex (compare_due a b) (lex (compare_weight a b) (compare_id a b)))).

(** A comparison that is an order with ties: symmetric, with ties that
    compare alike, and transitive. *)
Record order_cmp {A : Type} (cmp : A -> A -> comparison) : Prop := {
  cmp_sym : forall a b, cmp b a = CompOpp (cmp a b);
  cmp_eq_l : forall a b c, cmp a b = Eq -> cmp a c = cmp b c;
  cmp_lt_trans : forall a b c, cmp a b = Lt -> cmp b c = Lt -> cmp a c = Lt
}.

Definition tied {A : Type} (cmp : A -> A -> comparison) (x y : A) : bool :=
  match cmp x y with Eq => true | _ => false end.

(** [l] is [v] stably sorted by [cmp]: the same elements, in
    non-decreasing order, each class of tied elements in the order it
    has in [v]. *)
Definition stably_sorted {A : Type} (cmp : A -> A -> comparison)
    (v l : list A) : Prop :=
  Permutation v l
  /\ StronglySorted (fun a b => cmp a b <> Gt) l
  /\ forall x, filter (tied cmp x) l = filter (tied cmp x) v.

(** The filter of [list]. *)
Definition matches (f : ListFilter) (t : Task) : bool :=
  match f with
  | All => true
  | Pending => negb (done t)
  | Done => done t
  end.

(** The rows printed for a sequence of tasks. *)
Definition rows (v : list Task) : string :=
  String.concat "" (map print_task v).

(** The row of a task, column by column: the id in decimal, padded to
    three characters on the left; the done marker; the priority; the
    due date or ["--"]; the title; two spaces between the columns and a
    newline at the end. *)
Definition spec_row (t : Task) : string :=
  String.concat "  "
    [ setw 3 (string_of_int (id t));
      if done t then "[x]" else "[ ]";
      String (priority t) "";
      match due t with None => "--" | Some d => d end;
      title t ]
    ++ String LF "".

(** The output of [list] for the tasks [v], shown in this order. *)
Fixpoint spec_rows (v : list Task) : string :=
  match v with
  | [] => ""
  | t :: r => spec_row t ++ spec_rows r
  end.

(** [next_id]: [m] is the largest of 0 and the ids of [v]. *)
Definition largest_or_zero (v : list Task) (m : Z) : Prop :=
  0 <= m /\ (m = 0 \/ In m (map id v)) /\ Forall (fun t => id t <= m) v.

Definition task_minus_5 : Task := mkTask (-5) false "M" None "x".

Definition is_Lt (c : comparison) : bool :=
  match c with Lt => true | _ => false end.

(** ** Proof steps *)

(** The end of a case of a command: the status is not the expected one,
    or the file is the one given. *)
Ltac failed_or_not :=
  simpl; intros; try discriminate; try reflexivity.


(** ** Vocabulary of the further properties *)

(** The order that [list] shows inside a bucket (the tasks with one
    done flag), by sort key: weights for ["priority"], ids for ["id"],
    and due dates (an absent one as the sentinel) for ["due"] and for
    every other key. *)
Definition key_le (sort_key : string) (a b : Task) : Prop :=
  if String.eqb sort_key "priority"
  then spec_weight (priority a) <= spec_weight (priority b)
  else if String.eqb sort_key "id" then id a <= id b
  else String.leb (spec_due a) (spec_due b) = true.

Definition pending (t : Task) : bool := negb (done t).

(** The written file, read and written again. *)
Definition rewrite_file (file : option string) : option string :=
  option_map save_tasks (load_tasks file).

(** The arguments that [clear] and [list] take. *)
Definition clear_arg_ok (a : string) : bool :=
  String.eqb a "--all" || String.eqb a "--done".

Definition list_arg_ok (a : string) : bool :=
  String.eqb a "--all" || String.eqb a "--pending" || String.eqb a "--done"
  || prefix "--sort=" a.

(** The end of a case of a command, for a statement on a written file:
    the command succeeded, or the file is the one given. *)
Ltac written_or_not :=
  cbn; intros; first [reflexivity | exfalso; auto; fail | auto].

(** The end of a case of a command, for a statement on its status. *)
Ltac status_case :=
  cbn; first [left; reflexivity | right; left; reflexivity
             | right; right; split;
               [reflexivity | first [assumption | reflexivity]]].

(** [YYYY-MM-DD]: ten characters, the dashes and eight digits. *)
Definition date_shape (d : string) : Prop :=
  exists y1 y2 y3 y4 m1 m2 d1 d2 : ascii,
    d = String y1 (String y2 (String y3 (String y4 (String "-"
          (String m1 (String m2 (String "-" (String d1 (String d2 "")))))))))
    /\ isdigit y1 = true /\ isdigit y2 = true /\ isdigit y3 = true
    /\ isdigit y4 = true /\ isdigit m1 = true /\ isdigit m2 = true
    /\ isdigit d1 = true /\ isdigit d2 = true.

(** What [trim] keeps of a string that starts with a character that is
    not blank: the string up to its last character that is not blank. *)
Definition trim_end (s : string) : string :=
  match find_last_not_of blanks s with
  | None => ""
  | Some e => substring 0 (S e) s
  end.

(** [s] ends with the character [c]. *)
Fixpoint ends_with (c : ascii) (s : string) : bool :=
  match s with
  | "" => false
  | String x "" => Ascii.eqb x c
  | String _ r => ends_with c r
  end.
(** * Properties *)

(** ** Runs on concrete inputs *)

Example load_file1 :
  option_map (map id) (load_tasks (Some file1)) = Some [1; 2; 3].
Proof. reflexivity. Qed.

Example save_load_file1 :
  option_map save_tasks (load_tasks (Some file1)) = Some file1.
Proof. vm_compute. reflexivity. Qed.

Example list_pending_due :
  stdout (main ["tt"; "list"; "--pending"; "--sort=due"] (Some file1))
  = line "  2  [ ]  H  2024-01-02  buy milk"
      ++ line "  3  [ ]  L  --  call home".
Proof. vm_compute. reflexivity. Qed.

Example add_milk :
  file_after (main ["tt"; "add"; "Buy milk"; "-p"; "H"; "-d"; "2024-05-01"] None)
  = Some (line "1|0|H|2024-05-01|Buy milk").
Proof. vm_compute. reflexivity. Qed.

Example rm_999 :
  main ["tt"; "rm"; "999"] (Some file1)
  = fail (Some file1) (line "Task not found.").
Proof. vm_compute. reflexivity. Qed.

Example clear_all_then_list :
  stdout (main ["tt"; "list"; "--all"]
            (file_after (main ["tt"; "clear"; "--all"] (Some file1)))) = "".
Proof. vm_compute. reflexivity. Qed.

Example list_bad_id_message :
  stderr (main ["tt"; "list"] (Some file_bad_id))
  = line "terminate called after throwing an instance of 'std::invalid_argument'"
      ++ line "  what():  stoi".
Proof. vm_compute. reflexivity. Qed.

(** ** [next_id] *)

Lemma wrap_int_small (n : Z) : in_int n = true -> wrap_int n = n.
Proof.
  unfold in_int, wrap_int, INT_MIN, INT_MAX. intros H.
  apply andb_prop in H. destruct H as [Hlo Hhi].
  apply Z.leb_le in Hlo, Hhi.
  rewrite Z.mod_small; lia.
Qed.

Lemma max_loop_ge (v : list Task) (m : Z) : m <= max_loop m v.
Proof.
  revert m. induction v as [|t r IH]; intros m; simpl; [lia|].
  specialize (IH (Z.max m (id t))). lia.
Qed.

Lemma max_loop_bound (v : list Task) (m b : Z) :
  m <= b -> Forall (fun t => id t <= b) v -> max_loop m v <= b.
Proof.
  revert m. induction v as [|t r IH]; intros m Hm Hall; simpl; [exact Hm|].
  inversion Hall; subst. apply IH; [lia | assumption].
Qed.

Lemma max_loop_reaches (v : list Task) (m b : Z) :
  In b (map id v) -> b <= max_loop m v.
Proof.
  revert m. induction v as [|t r IH]; intros m Hin; simpl in *; [contradiction|].
  destruct Hin as [<- | Hin].
  - pose proof (max_loop_ge r (Z.max m (id t))). lia.
  - now apply IH.
Qed.

(** The general form: the loop starts from 0, so the result is one more
    than the largest of 0 and the ids. *)
Lemma next_id_max (v : list Task) (m : Z) :
  In m (map id v) -> Forall (fun t => id t <= m) v -> 0 <= m ->
  max_loop 0 v = m.
Proof.
  intros Hin Hall Hm.
  pose proof (max_loop_bound v 0 m Hm Hall).
  pose proof (max_loop_reaches v 0 m Hin). lia.
Qed.

Lemma max_loop_in (v : list Task) (m : Z) :
  max_loop m v = m \/ In (max_loop m v) (map id v).
Proof.
  revert m. induction v as [|t r IH]; intros m; [now left|].
  cbn [max_loop map]. destruct (IH (Z.max m (id t))) as [E | Hin].
  - rewrite E. destruct (Z.max_spec m (id t)) as [[_ ->] | [_ ->]].
    + right. now left.
    + now left.
  - right. now right.
Qed.

Lemma max_loop_largest (v : list Task) (m : Z) :
  largest_or_zero v m -> max_loop 0 v = m.
Proof.
  intros [Hm [Hin Hall]].
  pose proof (max_loop_bound v 0 m Hm Hall) as Hle.
  destruct Hin as [-> | Hin].
  - pose proof (max_loop_ge v 0). lia.
  - pose proof (max_loop_reaches v 0 m Hin). lia.
Qed.

(** C7, as the code has it.  The loop of [next_id] starts its maximum
    at 0: the result is one more than the largest of 0 and the ids
    present.  It is 1 on the empty collection, 6 on the ids 1, 3 and 5;
    every collection has such a largest value [m], and [next_id]
    returns [m + 1] when [m] is below [INT_MAX]; when [m] is [INT_MAX]
    the addition leaves the [int]s, and the result is [INT_MIN]. *)
Theorem next_id_largest_or_zero :
  next_id [] = 1
  /\ (forall d1 p1 u1 t1 d3 p3 u3 t3 d5 p5 u5 t5,
        next_id [mkTask 1 d1 p1 u1 t1; mkTask 3 d3 p3 u3 t3;
                 mkTask 5 d5 p5 u5 t5] = 6)
  /\ (forall v : list Task, exists m, largest_or_zero v m)
  /\ (forall (v : list Task) (m : Z),
        largest_or_zero v m ->
        next_id v = wrap_int (m + 1)
        /\ (m < INT_MAX -> next_id v = m + 1)
        /\ (m = INT_MAX -> next_id v = INT_MIN)).
Proof.
  split; [reflexivity|]. split; [reflexivity|]. split.
  - intros v. exists (max_loop 0 v). split; [apply max_loop_ge|]. split.
    + apply max_loop_in.
    + apply Forall_forall. intros t Ht. apply max_loop_reaches.
      now apply in_map.
  - intros v m Hm. pose proof Hm as [H0 _]. unfold next_id.
    rewrite (max_loop_largest v m Hm). split; [reflexivity|]. split.
    + intros Hmax. apply wrap_int_small. unfold in_int, INT_MIN, INT_MAX in *.
      apply andb_true_intro. split; apply Z.leb_le; lia.
    + intros ->. reflexivity.
Qed.

Lemma next_id_largest_or_zero_witness :
  largest_or_zero tasks_2_7_4 7 /\ 7 < INT_MAX
  /\ next_id tasks_2_7_4 = 7 + 1.
Proof.
  assert (Hm : largest_or_zero tasks_2_7_4 7).
  { split; [lia|]. split.
    - right. simpl. right. left. reflexivity.
    - repeat constructor; simpl; lia. }
  assert (Hmax : 7 < INT_MAX) by (unfold INT_MAX; lia).
  exact (conj Hm (conj Hmax
    (proj1 (proj2 (proj2 (proj2 (proj2 next_id_largest_or_zero))
                     tasks_2_7_4 7 Hm)) Hmax))).
Defined.

(** C7 as stated fails on a store whose ids are negative: the file
    with the one record of id -5 loads, the largest id present is -5,
    and [next_id] returns 1, not -4. *)
Lemma next_id_negative_ids :
  load_tasks (Some file_negative_id) = Some [task_minus_5]
  /\ Forall (fun t => id t <= -5) [task_minus_5]
  /\ next_id [task_minus_5] = 1
  /\ next_id [task_minus_5] <> -5 + 1.
Proof.
  split; [vm_compute; reflexivity|]. split; [repeat constructor; simpl; lia|].
  split; [reflexivity | vm_compute; discriminate].
Qed.

(** ** Failed commands and the data file *)

Lemma cmd_add_failed (args : list string) (file : option string) :
  exit_status (cmd_add args file) = Exit 1 ->
  file_after (cmd_add args file) = file.
Proof.
  unfold cmd_add. destruct args as [|a args]; [reflexivity|].
  destruct (add_loop (a :: args) "M" None []) as [msg | [[pr du] parts]];
    [reflexivity|].
  destruct parts as [|p parts]; [reflexivity|].
  destruct (load_tasks file); failed_or_not.
Qed.

Lemma cmd_list_failed (args : list string) (file : option string) :
  exit_status (cmd_list args file) = Exit 1 ->
  file_after (cmd_list args file) = file.
Proof.
  unfold cmd_list.
  destruct (list_args args All "due") as [msg | [f k]]; [reflexivity|].
  destruct (list_cmd f k file); failed_or_not.
Qed.

Lemma cmd_done_failed (args : list string) (file : option string) :
  exit_status (cmd_done args file) = Exit 1 ->
  file_after (cmd_done args file) = file.
Proof.
  unfold cmd_done. destruct args as [|a args]; [reflexivity|].
  destruct (parse_int a <? 0); [reflexivity|].
  destruct (load_tasks file) as [v|]; [|failed_or_not].
  destruct (mark_done (parse_int a) v); failed_or_not.
Qed.

Lemma cmd_rm_failed (args : list string) (file : option string) :
  exit_status (cmd_rm args file) = Exit 1 ->
  file_after (cmd_rm args file) = file.
Proof.
  unfold cmd_rm. destruct args as [|a args]; [reflexivity|].
  destruct (parse_int a <? 0); [reflexivity|].
  destruct (load_tasks file) as [v|]; [|failed_or_not].
  destruct (Nat.eqb _ _); failed_or_not.
Qed.

Lemma cmd_clear_failed (args : list string) (file : option string) :
  exit_status (cmd_clear args file) = Exit 1 ->
  file_after (cmd_clear args file) = file.
Proof.
  unfold cmd_clear. destruct (clear_args args false); [reflexivity|].
  destruct (load_tasks file); failed_or_not.
Qed.

(** C6.  Whatever the arguments and the data file, an invocation that
    exits with status 1 leaves the file as it was (absent stays absent):
    every [return 1] of [main] comes before the only write,
    [save_tasks]. *)
Theorem failed_command_keeps_file (argv : list string) (file : option string) :
  exit_status (main argv file) = Exit 1 ->
  file_after (main argv file) = file.
Proof.
  unfold main.
  destruct argv as [|prog [|cmd args]]; [reflexivity | reflexivity |].
  destruct (_ || _); [reflexivity|].
  destruct (String.eqb cmd "add"); [apply cmd_add_failed|].
  destruct (String.eqb cmd "list"); [apply cmd_list_failed|].
  destruct (String.eqb cmd "done"); [apply cmd_done_failed|].
  destruct (String.eqb cmd "rm"); [apply cmd_rm_failed|].
  destruct (String.eqb cmd "clear"); [apply cmd_clear_failed|].
  reflexivity.
Qed.

Lemma failed_command_keeps_file_witness :
  exit_status (main ["tt"; "rm"; "999"] (Some file1)) = Exit 1
  /\ file_after (main ["tt"; "rm"; "999"] (Some file1)) = Some file1.
Proof.
  assert (H : exit_status (main ["tt"; "rm"; "999"] (Some file1)) = Exit 1)
    by (vm_compute; reflexivity).
  exact (conj H (failed_command_keeps_file _ _ H)).
Defined.

(** The same holds when the process dies of the exception of
    [load_tasks]. *)
Lemma uncaught_keeps_file (argv : list string) (file : option string) :
  exit_status (main argv file) = Uncaught ->
  file_after (main argv file) = file.
Proof.
  unfold main.
  destruct argv as [|prog [|cmd args]]; [reflexivity | reflexivity |].
  destruct (_ || _); [reflexivity|].
  destruct (String.eqb cmd "add").
  { unfold cmd_add. destruct args as [|a args]; [reflexivity|].
    destruct (add_loop _ _ _ _) as [msg | [[pr du] parts]]; [reflexivity|].
    destruct parts; [reflexivity|]. destruct (load_tasks file); failed_or_not. }
  destruct (String.eqb cmd "list").
  { unfold cmd_list. destruct (list_args _ _ _) as [msg | [f k]]; [reflexivity|].
    destruct (list_cmd f k file); failed_or_not. }
  destruct (String.eqb cmd "done").
  { unfold cmd_done. destruct args as [|a args]; [reflexivity|].
    destruct (_ <? _); [reflexivity|].
    destruct (load_tasks file) as [v|]; [|failed_or_not].
    destruct (mark_done _ v); failed_or_not. }
  destruct (String.eqb cmd "rm").
  { unfold cmd_rm. destruct args as [|a args]; [reflexivity|].
    destruct (_ <? _); [reflexivity|].
    destruct (load_tasks file) as [v|]; [|failed_or_not].
    destruct (Nat.eqb _ _); failed_or_not. }
  destruct (String.eqb cmd "clear").
  { unfold cmd_clear. destruct (clear_args _ _); [reflexivity|].
    destruct (load_tasks file); failed_or_not. }
  reflexivity.
Qed.

(** ** [add] with an empty title *)

(** C3 fails on the code at an empty (or blank) title argument: the
    guard of [add] looks at the number of title parts, not at the
    trimmed title.  [add ""] exits with 0, reports task 1 and writes a
    record that [load_tasks] then drops. *)
Theorem add_accepts_empty_title :
  main ["tt"; "add"; ""] None
  = mkOutcome (Exit 0) (Some (line "1|0|M|-|")) (line "Added task #1") ""
  /\ main ["tt"; "add"; " "] None
     = mkOutcome (Exit 0) (Some (line "1|0|M|-|")) (line "Added task #1") ""
  /\ load_tasks (Some (line "1|0|M|-|")) = Some [].
Proof. vm_compute. repeat split; reflexivity. Qed.

(** ** [add]: the argument loop and the [-p] flag *)

Lemma add_loop_word (a : string) (rest : list string) pr du parts :
  flag_like a = false ->
  add_loop (a :: rest) pr du parts = add_loop rest pr du (parts ++ [a]).
Proof.
  intros Hw. simpl. rewrite Hw.
  destruct rest as [|val rest']; [reflexivity|].
  destruct (String.eqb_spec a "-p") as [-> | _]; [discriminate Hw|].
  destruct (String.eqb_spec a "-d") as [-> | _]; [discriminate Hw|].
  reflexivity.
Qed.

Lemma add_at_loop (args rest : list string) pr du parts :
  add_at args rest pr du parts ->
  add_loop args "M" None [] = add_loop rest pr du parts.
Proof.
  induction 1 as [| a rest pr du parts _ IH Hw
                  | val rest pr du parts _ IH Hp
                  | val rest pr du parts _ IH Hd].
  - reflexivity.
  - rewrite IH. now apply add_loop_word.
  - rewrite IH. simpl. now rewrite Hp.
  - rewrite IH. simpl. now rewrite Hd.
Qed.

Lemma add_at_length (args rest : list string) pr du parts :
  add_at args rest pr du parts -> (List.length rest <= List.length args)%nat.
Proof. induction 1; simpl in *; lia. Qed.

Lemma cmd_add_loop (args : list string) (file : option string) :
  args <> [] ->
  cmd_add args file =
  match add_loop args "M" None [] with
  | inl msg => fail file msg
  | inr (pr, du, []) => fail file (line "Error: title required.")
  | inr (pr, du, parts) =>
      match load_tasks file with
      | None => terminate file
      | Some v =>
          mkOutcome (Exit 0)
            (Some (save_tasks
                     (v ++ [mkTask (next_id v) false pr du
                              (trim (join_loop 0 parts ""))])))
            (line ("Added task #" ++ string_of_int (next_id v))) ""
      end
  end.
Proof.
  intros Hne. unfold cmd_add. destruct args as [|a args]; [contradiction|].
  destruct (add_loop (a :: args) "M" None []) as [msg | [[pr du] parts]];
    [reflexivity|].
  destruct parts as [|p parts]; [reflexivity|].
  destruct (load_tasks file) as [v|]; [|reflexivity].
  now rewrite last_last.
Qed.

(** C4, as the code has it.  When the loop of [add] meets [-p] followed
    by a value, it keeps the first character of the value in upper case
    (the NUL character for an empty value) and nothing else of it.  If
    that character is none of H, M and L the command fails with status
    1 and the file untouched, so it succeeds only for H, M and L; and
    when [-p] is the last flag, the task written has that character as
    its priority. *)
Theorem priority_flag_first_char (prog val : string) (args rest : list string)
    (pr : ascii) (du : option string) (parts : list string)
    (file : option string) :
  add_at args ("-p" :: val :: rest) pr du parts ->
  let p := toupper (char_at 0 val) in
  (not_HML p = true ->
   main (prog :: "add" :: args) file
   = fail file (line "Invalid priority. Use H/M/L."))
  /\ (exit_status (main (prog :: "add" :: args) file) = Exit 0 ->
      p = "H"%char \/ p = "M"%char \/ p = "L"%char)
  /\ (not_HML p = false -> rest = [] -> parts <> [] ->
      forall v, load_tasks file = Some v ->
      file_after (main (prog :: "add" :: args) file)
      = Some (save_tasks
                (v ++ [mkTask (next_id v) false p du
                         (trim (join_loop 0 parts ""))]))).
Proof.
  intros Hat p.
  assert (Hne : args <> []).
  { apply add_at_length in Hat. destruct args; [simpl in Hat; lia | discriminate]. }
  assert (Hmain : main (prog :: "add" :: args) file = cmd_add args file)
    by reflexivity.
  rewrite Hmain, (cmd_add_loop args file Hne), (add_at_loop _ _ _ _ _ Hat).
  assert (Hbad : not_HML p = true ->
            add_loop ("-p" :: val :: rest) pr du parts
            = inl (line "Invalid priority. Use H/M/L.")).
  { intros Hp. simpl. fold p. now rewrite Hp. }
  split; [|split].
  - intros Hp. now rewrite (Hbad Hp).
  - destruct (not_HML p) eqn:Hp.
    + rewrite (Hbad eq_refl). discriminate.
    + intros _. unfold not_HML in Hp.
      destruct (Ascii.eqb_spec p "H"); [now left|].
      destruct (Ascii.eqb_spec p "M"); [now right; left|].
      destruct (Ascii.eqb_spec p "L"); [now right; right|].
      discriminate Hp.
  - intros Hp -> Hparts v Hv. simpl. fold p. rewrite Hp.
    destruct parts as [|w parts]; [contradiction|].
    now rewrite Hv.
Qed.

Lemma priority_flag_first_char_witness :
  add_at ["Buy"; "milk"; "-p"; "low"] ["-p"; "low"] "M" None ["Buy"; "milk"]
  /\ file_after (main ["tt"; "add"; "Buy"; "milk"; "-p"; "low"] None)
     = Some (save_tasks
               ([] ++ [mkTask (next_id []) false (toupper (char_at 0 "low")) None
                         (trim (join_loop 0 ["Buy"; "milk"] ""))])).
Proof.
  assert (Hat : add_at ["Buy"; "milk"; "-p"; "low"] ["-p"; "low"] "M" None
                  ["Buy"; "milk"]).
  { apply (add_at_word _ "milk" ["-p"; "low"] "M" None ["Buy"]); [|reflexivity].
    apply (add_at_word _ "Buy" ["milk"; "-p"; "low"] "M" None []); [|reflexivity].
    apply add_at_start. }
  split; [exact Hat|].
  apply (proj2 (proj2 (priority_flag_first_char "tt" "low" _ [] "M" None
                         ["Buy"; "milk"] None Hat))).
  - reflexivity.
  - reflexivity.
  - discriminate.
  - reflexivity.
Defined.

(** C4 as stated fails: ["high"] is none of the strings H, M and L, and
    [add] takes it as priority H. *)
Lemma add_accepts_long_priority :
  main ["tt"; "add"; "x"; "-p"; "high"] None
  = mkOutcome (Exit 0) (Some (line "1|0|H|-|x")) (line "Added task #1") "".
Proof. vm_compute. reflexivity. Qed.

(** ** Strings *)

Lemma append_nil_r (s : string) : s ++ "" = s.
Proof. induction s as [|c r IH]; simpl; [reflexivity | now rewrite IH]. Qed.

Lemma append_assoc (a b c : string) : (a ++ b) ++ c = a ++ (b ++ c).
Proof. induction a as [|x a IH]; simpl; [reflexivity | now rewrite IH]. Qed.

Lemma append_eq_nil (a b : string) : a ++ b = "" -> a = "" /\ b = "".
Proof. destruct a; simpl; [now split | discriminate]. Qed.

Lemma mem_char_append (c : ascii) (a b : string) :
  mem_char c (a ++ b) = mem_char c a || mem_char c b.
Proof.
  induction a as [|x a IH]; simpl; [reflexivity|].
  now rewrite IH, orb_assoc.
Qed.

Lemma free_of_append (c : ascii) (a b : string) :
  free_of c a -> free_of c b -> free_of c (a ++ b).
Proof.
  unfold free_of. intros Ha Hb. now rewrite mem_char_append, Ha, Hb.
Qed.

Lemma string_forall_free (p : ascii -> bool) (c : ascii) (s : string) :
  string_forall p s = true -> p c = false -> free_of c s.
Proof.
  unfold free_of. intros Hall Hc. induction s as [|x r IH]; [reflexivity|].
  simpl in *. apply andb_prop in Hall. destruct Hall as [Hx Hr].
  rewrite (IH Hr), orb_false_r.
  destruct (Ascii.eqb_spec c x) as [-> | _]; [congruence | reflexivity].
Qed.

(** ** [std::getline] loops *)

Lemma getlines_nonempty (d : ascii) (s : string) :
  s <> "" -> getlines d s <> [].
Proof.
  destruct s as [|c r]; [contradiction|]. intros _. simpl.
  destruct (Ascii.eqb c d); [discriminate|].
  destruct (getlines d r); discriminate.
Qed.

Lemma getlines_read_until (d : ascii) (s : string) :
  s <> "" ->
  getlines d s
  = fst (read_until d s) :: getlines d (snd (read_until d s)).
Proof.
  induction s as [|c r IH]; [contradiction|]. intros _. simpl.
  destruct (Ascii.eqb c d); [reflexivity|].
  destruct r as [|c' r']; [reflexivity|].
  rewrite IH by discriminate.
  destruct (read_until d (String c' r')) as [l rest]. reflexivity.
Qed.

(** The one-pass function is the loop over [getline]. *)
Lemma getlines_unfold (d : ascii) (s : string) :
  getlines d s =
  match getline d s with
  | None => []
  | Some (cur, rest) => cur :: getlines d rest
  end.
Proof.
  destruct s as [|c r]; [reflexivity|].
  rewrite getlines_read_until by discriminate.
  unfold getline. destruct (read_until d (String c r)). reflexivity.
Qed.

(** A field without the delimiter, followed by the delimiter. *)
Lemma getlines_field (d : ascii) (s r : string) :
  free_of d s -> getlines d (s ++ String d r) = s :: getlines d r.
Proof.
  unfold free_of. induction s as [|c s IH]; simpl; intros Hs.
  - now rewrite Ascii.eqb_refl.
  - apply orb_false_elim in Hs. destruct Hs as [Hc Hs].
    rewrite Ascii.eqb_sym, Hc, (IH Hs). reflexivity.
Qed.

(** A last field without the delimiter. *)
Lemma getlines_last (d : ascii) (s : string) :
  free_of d s -> s <> "" -> getlines d s = [s].
Proof.
  unfold free_of. induction s as [|c s IH]; [contradiction|].
  simpl. intros Hs _. apply orb_false_elim in Hs. destruct Hs as [Hc Hs].
  rewrite Ascii.eqb_sym, Hc.
  destruct s as [|c' s']; [reflexivity|].
  rewrite (IH Hs); [reflexivity | discriminate].
Qed.

(** What comes after a delimiter starts afresh. *)
Lemma getlines_append (d : ascii) (a b : string) :
  getlines d (a ++ String d b)
  = (getlines d (a ++ String d "") ++ getlines d b)%list.
Proof.
  induction a as [|c a IH]; simpl.
  - now rewrite Ascii.eqb_refl.
  - destruct (Ascii.eqb c d); [now rewrite IH|].
    rewrite IH.
    destruct (getlines d (a ++ String d "")) eqn:E; [|reflexivity].
    exfalso. revert E. apply getlines_nonempty. destruct a; discriminate.
Qed.

(** No part holds the delimiter, and no part holds a character that
    the line does not hold. *)
Lemma getlines_free (d : ascii) (s : string) :
  Forall (free_of d) (getlines d s).
Proof.
  unfold free_of. induction s as [|c s IH]; simpl; [constructor|].
  destruct (Ascii.eqb_spec c d) as [-> | Hcd]; [now constructor|].
  destruct (getlines d s) as [|cur parts].
  - constructor; [|constructor]. simpl.
    destruct (Ascii.eqb_spec d c); [congruence | reflexivity].
  - inversion IH; subst. constructor; [|assumption]. simpl.
    destruct (Ascii.eqb_spec d c); [congruence | assumption].
Qed.

Lemma getlines_keep_free (d c : ascii) (s : string) :
  free_of c s -> Forall (free_of c) (getlines d s).
Proof.
  unfold free_of. induction s as [|x s IH]; simpl; intros Hs; [constructor|].
  apply orb_false_elim in Hs. destruct Hs as [Hx Hs]. specialize (IH Hs).
  destruct (Ascii.eqb x d); [now constructor|].
  destruct (getlines d s) as [|cur parts].
  - constructor; [|constructor]. simpl. now rewrite Hx.
  - inversion IH; subst. constructor; [|assumption]. simpl.
    unfold free_of in *. now rewrite Hx.
Qed.

(** ** Decimal output and [std::stoi] *)

Lemma digit_cases (d : Z) :
  0 <= d < 10 ->
  d = 0 \/ d = 1 \/ d = 2 \/ d = 3 \/ d = 4 \/ d = 5 \/ d = 6 \/ d = 7
  \/ d = 8 \/ d = 9.
Proof. lia. Qed.

Lemma isdigit_digit_char (d : Z) : 0 <= d < 10 -> isdigit (digit_char d) = true.
Proof.
  intros H.
  destruct (digit_cases d H) as [-> | [-> | [-> | [-> | [-> | [-> | [-> |
    [-> | [-> | ->]]]]]]]]]; reflexivity.
Qed.

Lemma digit_val_digit_char (d : Z) : 0 <= d < 10 -> digit_val (digit_char d) = d.
Proof.
  intros H.
  destruct (digit_cases d H) as [-> | [-> | [-> | [-> | [-> | [-> | [-> |
    [-> | [-> | ->]]]]]]]]]; reflexivity.
Qed.

Lemma mod10_digit (n : Z) : 0 <= n mod 10 < 10.
Proof. apply Z.mod_pos_bound. lia. Qed.

Lemma stoi_digits_of (fuel : nat) (n : Z) (acc : string) :
  0 <= n < 10 ^ Z.of_nat fuel ->
  stoi_digits (digits_of fuel n acc) 0 = stoi_digits acc n.
Proof.
  revert n acc. induction fuel as [|f IH]; intros n acc Hn.
  - simpl in *. assert (n = 0) by lia. now subst.
  - cbn [digits_of]. cbv zeta.
    destruct (Z.ltb_spec n 10) as [Hlt | Hge].
    + cbn [stoi_digits]. rewrite isdigit_digit_char by apply mod10_digit.
      rewrite digit_val_digit_char by apply mod10_digit.
      rewrite Z.mod_small by lia. reflexivity.
    + rewrite IH.
      * cbn [stoi_digits]. rewrite isdigit_digit_char by apply mod10_digit.
        rewrite digit_val_digit_char by apply mod10_digit.
        f_equal. pose proof (Z.div_mod n 10). lia.
      * rewrite Nat2Z.inj_succ, Z.pow_succ_r in Hn by lia.
        split; [apply Z.div_pos; lia|].
        apply Z.div_lt_upper_bound; lia.
Qed.

Lemma enough_digits (n : Z) :
  0 <= n -> n < 10 ^ Z.of_nat (S (Z.to_nat (Z.log2 n))).
Proof.
  intros Hn. rewrite Nat2Z.inj_succ, Z2Nat.id by apply Z.log2_nonneg.
  destruct (Z.eq_dec n 0) as [-> | Hnz]; [reflexivity|].
  assert (Hlog : n < 2 ^ Z.succ (Z.log2 n)) by (apply Z.log2_spec; lia).
  assert (Hpow : 2 ^ Z.succ (Z.log2 n) <= 10 ^ Z.succ (Z.log2 n)).
  { apply Z.pow_le_mono_l. lia. }
  lia.
Qed.

Lemma stoi_digits_string_of_nat (n : Z) :
  0 <= n -> stoi_digits (string_of_nat_Z n) 0 = n.
Proof.
  intros Hn. unfold string_of_nat_Z.
  rewrite stoi_digits_of; [reflexivity|].
  split; [assumption | now apply enough_digits].
Qed.

Lemma digits_of_all_digits (fuel : nat) (n : Z) (acc : string) :
  string_forall isdigit acc = true ->
  string_forall isdigit (digits_of fuel n acc) = true.
Proof.
  revert n acc. induction fuel as [|f IH]; intros n acc Hacc; [exact Hacc|].
  cbn [digits_of]. cbv zeta.
  assert (Hacc' : string_forall isdigit (String (digit_char (n mod 10)) acc) = true).
  { simpl. rewrite isdigit_digit_char by apply mod10_digit. exact Hacc. }
  destruct (n <? 10); [exact Hacc' | now apply IH].
Qed.

Lemma digits_of_nonempty (fuel : nat) (n : Z) (acc : string) :
  acc <> "" -> digits_of fuel n acc <> "".
Proof.
  revert n acc. induction fuel as [|f IH]; intros n acc Hacc; [exact Hacc|].
  cbn [digits_of]. cbv zeta.
  destruct (n <? 10); [discriminate | apply IH; discriminate].
Qed.

(** The digits of a number: a first digit, and digits after it. *)
Lemma string_of_nat_shape (n : Z) :
  exists c r, string_of_nat_Z n = String c r
              /\ isdigit c = true /\ string_forall isdigit r = true.
Proof.
  unfold string_of_nat_Z.
  set (fuel := Z.to_nat (Z.log2 n)).
  pose proof (digits_of_all_digits (S fuel) n "" eq_refl) as Hall.
  assert (Hne : digits_of (S fuel) n "" <> "").
  { cbn [digits_of]. cbv zeta.
    destruct (n <? 10); [discriminate | apply digits_of_nonempty; discriminate]. }
  destruct (digits_of (S fuel) n "") as [|c r]; [contradiction|].
  simpl in Hall. apply andb_prop in Hall. destruct Hall as [Hc Hr].
  now exists c, r.
Qed.

Lemma isdigit_not_space (c : ascii) : isdigit c = true -> isspace c = false.
Proof.
  unfold isdigit, isspace. intros H. apply andb_prop in H.
  destruct H as [Hlo Hhi]. apply Z.leb_le in Hlo, Hhi.
  change (code "0") with 48 in Hlo. change (code CR) with 13.
  destruct (Ascii.eqb_spec c " ") as [-> | _];
    [vm_compute in Hlo; contradiction|].
  simpl. apply andb_false_intro2. apply Z.leb_gt. lia.
Qed.

Lemma isdigit_not_sign (c : ascii) :
  isdigit c = true -> Ascii.eqb c "-" = false /\ Ascii.eqb c "+" = false.
Proof.
  intros H. split.
  - destruct (Ascii.eqb_spec c "-") as [-> | _]; [discriminate H | reflexivity].
  - destruct (Ascii.eqb_spec c "+") as [-> | _]; [discriminate H | reflexivity].
Qed.

(** Reading back what [operator<<] wrote for an [int]. *)
Lemma stoi_string_of_int (n : Z) :
  in_int n = true -> stoi (string_of_int n) = Some n.
Proof.
  intros Hint. unfold string_of_int.
  destruct (Z.ltb_spec n 0) as [Hneg | Hpos].
  - destruct (string_of_nat_shape (- n)) as [c [r [E [Hc Hr]]]].
    pose proof (stoi_digits_string_of_nat (- n)) as Hval.
    unfold stoi. cbn [skip_space]. change (isspace "-") with false. cbv iota.
    rewrite Ascii.eqb_refl. rewrite E in *. cbn [starts_with_digit].
    rewrite Hc. rewrite Hval by lia. rewrite Z.opp_involutive, Hint. reflexivity.
  - destruct (string_of_nat_shape n) as [c [r [E [Hc Hr]]]].
    pose proof (stoi_digits_string_of_nat n Hpos) as Hval.
    unfold stoi. rewrite E in *. cbn [skip_space].
    rewrite (isdigit_not_space c Hc).
    destruct (isdigit_not_sign c Hc) as [-> ->].
    cbn [starts_with_digit]. rewrite Hc, Hval, Hint. reflexivity.
Qed.

(** [std::stoi] only returns values of type [int]. *)
Lemma stoi_in_int (s : string) (n : Z) : stoi s = Some n -> in_int n = true.
Proof.
  unfold stoi.
  destruct (match skip_space s with
            | "" => (false, skip_space s)
            | String c r =>
                if Ascii.eqb c "-" then (true, r)
                else if Ascii.eqb c "+" then (false, r)
                else (false, skip_space s)
            end) as [neg s2].
  destruct (starts_with_digit s2); [|discriminate].
  destruct (in_int _) eqn:E; [|discriminate].
  intros [= <-]. exact E.
Qed.

Lemma digits_all (n : Z) : string_forall isdigit (string_of_nat_Z n) = true.
Proof. apply digits_of_all_digits. reflexivity. Qed.

Lemma string_of_int_chars (n : Z) :
  string_forall digit_or_minus (string_of_int n) = true.
Proof.
  assert (Hweak : forall s, string_forall isdigit s = true ->
                            string_forall digit_or_minus s = true).
  { induction s as [|c r IH]; [reflexivity|]. simpl. intros H.
    apply andb_prop in H. destruct H as [Hc Hr].
    unfold digit_or_minus at 1. now rewrite Hc, (IH Hr). }
  unfold string_of_int. destruct (n <? 0).
  - destruct (string_of_nat_shape (- n)) as [c [r [E [Hc Hr]]]].
    cbn [string_forall]. rewrite (Hweak _ (digits_all (- n))). reflexivity.
  - exact (Hweak _ (digits_all n)).
Qed.

Lemma string_of_int_shape (n : Z) :
  exists c r, string_of_int n = String c r /\ mem_char c blanks = false.
Proof.
  pose proof (string_of_int_chars n) as H.
  unfold string_of_int in *. destruct (n <? 0).
  - exists "-"%char, (string_of_nat_Z (- n)). now split.
  - destruct (string_of_nat_shape n) as [c [r [E [Hc Hr]]]].
    exists c, r. split; [exact E|].
    pose proof (isdigit_not_space c Hc) as Hsp. unfold isspace in Hsp.
    apply orb_false_elim in Hsp. destruct Hsp as [Hs Hrange].
    unfold blanks. simpl. rewrite Hs. simpl.
    destruct (Ascii.eqb_spec c TAB) as [-> | _]; [discriminate Hc|].
    destruct (Ascii.eqb_spec c LF) as [-> | _]; [discriminate Hc|].
    destruct (Ascii.eqb_spec c CR) as [-> | _]; [discriminate Hc|].
    reflexivity.
Qed.

(** ** The id argument of [done] and [rm] *)






(** ** [encode_field] *)

Lemma remove_char_free (a : ascii) (s : string) : free_of a (remove_char a s).
Proof.
  unfold free_of. induction s as [|c r IH]; [reflexivity|]. simpl.
  destruct (Ascii.eqb_spec c a) as [-> | Hca]; [exact IH|]. simpl.
  rewrite IH. destruct (Ascii.eqb_spec a c); [congruence | reflexivity].
Qed.

Lemma remove_char_keeps_free (a c : ascii) (s : string) :
  free_of c s -> free_of c (remove_char a s).
Proof.
  unfold free_of. induction s as [|x r IH]; [reflexivity|]. simpl. intros H.
  apply orb_false_elim in H. destruct H as [Hx Hr].
  destruct (Ascii.eqb x a); [now apply IH|]. simpl. now rewrite Hx, IH.
Qed.

Lemma replace_char_free (a b : ascii) (s : string) :
  a <> b -> free_of a (replace_char a b s).
Proof.
  unfold free_of. intros Hab. induction s as [|c r IH]; [reflexivity|]. simpl.
  rewrite IH, orb_false_r.
  destruct (Ascii.eqb_spec c a) as [-> | Hca].
  - destruct (Ascii.eqb_spec a b); [contradiction | reflexivity].
  - destruct (Ascii.eqb_spec a c); [congruence | reflexivity].
Qed.

Lemma remove_char_id (a : ascii) (s : string) :
  free_of a s -> remove_char a s = s.
Proof.
  unfold free_of. induction s as [|c r IH]; [reflexivity|]. simpl. intros H.
  apply orb_false_elim in H. destruct H as [Hc Hr].
  rewrite Ascii.eqb_sym, Hc, (IH Hr). reflexivity.
Qed.

Lemma replace_char_id (a b : ascii) (s : string) :
  free_of a s -> replace_char a b s = s.
Proof.
  unfold free_of. induction s as [|c r IH]; [reflexivity|]. simpl. intros H.
  apply orb_false_elim in H. destruct H as [Hc Hr].
  rewrite Ascii.eqb_sym, Hc, (IH Hr). reflexivity.
Qed.

Lemma encode_field_free (s : string) :
  free_of SEP (encode_field s) /\ free_of LF (encode_field s)
  /\ free_of CR (encode_field s).
Proof.
  unfold encode_field. repeat split.
  - do 2 apply remove_char_keeps_free. apply replace_char_free. discriminate.
  - apply remove_char_keeps_free. apply remove_char_free.
  - apply remove_char_free.
Qed.

(** A title without the three characters is written as it is. *)
Lemma encode_field_id (s : string) :
  free_of SEP s -> free_of LF s -> free_of CR s -> encode_field s = s.
Proof.
  intros Hsep Hlf Hcr. unfold encode_field.
  now rewrite (replace_char_id _ _ _ Hsep), (remove_char_id _ _ Hlf),
    (remove_char_id _ _ Hcr).
Qed.

Lemma encode_field_idem (s : string) :
  encode_field (encode_field s) = encode_field s.
Proof.
  destruct (encode_field_free s) as [H1 [H2 H3]]. now apply encode_field_id.
Qed.

(** ** [trim] *)

Lemma find_first_none (set s : string) :
  find_first_not_of set s = None
  <-> string_forall (fun c => mem_char c set) s = true.
Proof.
  induction s as [|c r IH]; simpl; [tauto|].
  destruct (mem_char c set); simpl.
  - rewrite <- IH. destruct (find_first_not_of set r); simpl; split; congruence.
  - split; discriminate.
Qed.

Lemma find_last_lt (set s : string) (e : nat) :
  find_last_not_of set s = Some e -> (e < String.length s)%nat.
Proof.
  revert e. induction s as [|c r IH]; simpl; intros e; [discriminate|].
  destruct (find_last_not_of set r) as [i|].
  - intros [= <-]. specialize (IH i eq_refl). lia.
  - destruct (mem_char c set); [discriminate|]. intros [= <-]. lia.
Qed.

Lemma find_first_last (set s : string) (b : nat) :
  find_first_not_of set s = Some b ->
  exists e, find_last_not_of set s = Some e
            /\ (b <= e)%nat /\ (e < String.length s)%nat.
Proof.
  revert b. induction s as [|c r IH]; simpl; intros b; [discriminate|].
  destruct (mem_char c set) eqn:Hc.
  - destruct (find_first_not_of set r) as [b'|]; [|discriminate].
    intros [= <-]. destruct (IH b' eq_refl) as [e [-> [Hle Hlt]]].
    exists (S e). repeat split; lia.
  - intros [= <-].
    destruct (find_last_not_of set r) as [i|] eqn:E.
    + exists (S i). apply find_last_lt in E. repeat split; lia.
    + exists 0%nat. repeat split; lia.
Qed.

Lemma substring_nonempty (n m : nat) (s : string) :
  (n < String.length s)%nat -> substring n (S m) s <> "".
Proof.
  revert n. induction s as [|c r IH]; simpl; intros n Hn; [lia|].
  destruct n as [|n]; [discriminate|]. apply IH. lia.
Qed.

(** [trim(line).empty()] holds exactly for the lines made of blanks. *)
Lemma trim_empty (s : string) : trim s = "" <-> is_blank s = true.
Proof.
  unfold trim, is_blank. rewrite <- find_first_none.
  destruct (find_first_not_of blanks s) as [b|] eqn:E; [|tauto].
  destruct (find_first_last _ _ _ E) as [e [-> [Hle Hlt]]].
  split; [|discriminate]. intros H. exfalso. revert H.
  replace (e - b + 1)%nat with (S (e - b)) by lia.
  apply substring_nonempty. lia.
Qed.

Lemma trim_eqb (s : string) : String.eqb (trim s) "" = is_blank s.
Proof.
  destruct (String.eqb_spec (trim s) "") as [H | H].
  - symmetry. now apply trim_empty.
  - destruct (is_blank s) eqn:E; [|reflexivity].
    exfalso. apply H. now apply trim_empty.
Qed.

(** ** One record: written, split and read *)

Lemma concat_sep_cons (d : ascii) (f x : string) (xs : list string) :
  String.concat (String d "") (f :: x :: xs)
  = f ++ String d (String.concat (String d "") (x :: xs)).
Proof. reflexivity. Qed.

Lemma getlines_concat (d : ascii) (fs : list string) (last : string) :
  Forall (free_of d) fs -> free_of d last ->
  getlines d (String.concat (String d "") (fs ++ [last]))
  = (fs ++ (if String.eqb last "" then [] else [last]))%list.
Proof.
  intros Hfs Hlast. induction Hfs as [|f fs Hf Hfs IH].
  - simpl. destruct (String.eqb_spec last "") as [-> | Hne]; [reflexivity|].
    now apply getlines_last.
  - change ((f :: fs) ++ [last])%list with (f :: (fs ++ [last]))%list.
    destruct (fs ++ [last])%list as [|x xs] eqn:E.
    { destruct fs; discriminate E. }
    rewrite concat_sep_cons, (getlines_field d f _ Hf), IH. reflexivity.
Qed.

Lemma fields_free (t : Task) :
  plain_fields t ->
  Forall (free_of SEP) (fields t) /\ Forall (free_of LF) (fields t).
Proof.
  intros [Hp1 [Hp2 Hdue]].
  assert (Hint : forall c, digit_or_minus c = false ->
                           free_of c (string_of_int (id t))).
  { intros c Hc. exact (string_forall_free _ c _ (string_of_int_chars (id t)) Hc). }
  assert (Hprio : forall c, priority t <> c -> free_of c (String (priority t) "")).
  { intros c Hc. unfold free_of. simpl.
    destruct (Ascii.eqb_spec c (priority t)); [congruence | reflexivity]. }
  assert (Hdone : free_of SEP (String (if done t then "1" else "0")%char "")
                  /\ free_of LF (String (if done t then "1" else "0")%char "")).
  { destruct (done t); split; reflexivity. }
  destruct (encode_field_free (title t)) as [Ht1 [Ht2 _]].
  destruct Hdone as [Hd1 Hd2].
  unfold fields. split.
  - repeat constructor; auto.
    destruct (due t) as [d|]; [tauto | reflexivity].
  - repeat constructor; auto.
    destruct (due t) as [d|]; [tauto | reflexivity].
Qed.

Lemma split_encode_body (t : Task) :
  plain_fields t ->
  split (encode_body t) SEP
  = ([ string_of_int (id t);
       String (if done t then "1" else "0")%char "";
       String (priority t) "";
       match due t with Some d => d | None => "-" end ]
     ++ (if String.eqb (encode_field (title t)) "" then []
         else [encode_field (title t)]))%list.
Proof.
  intros Hok. destruct (fields_free t Hok) as [Hsep _].
  unfold split, encode_body, fields in *.
  inversion Hsep as [|? ? H1 Hs1]; subst. inversion Hs1 as [|? ? H2 Hs2]; subst.
  inversion Hs2 as [|? ? H3 Hs3]; subst. inversion Hs3 as [|? ? H4 Hs4]; subst.
  inversion Hs4 as [|? ? H5 _]; subst.
  apply (getlines_concat SEP
           [string_of_int (id t); String (if done t then "1" else "0")%char "";
            String (priority t) ""; match due t with Some d => d | None => "-" end]
           (encode_field (title t))).
  - repeat constructor; assumption.
  - assumption.
Qed.

Lemma encode_body_not_blank (t : Task) : is_blank (encode_body t) = false.
Proof.
  unfold encode_body, fields. cbn [String.concat].
  destruct (string_of_int_shape (id t)) as [c [r [-> Hc]]].
  unfold is_blank. cbn [append string_forall]. now rewrite Hc.
Qed.

(** The body of the loop of [load_tasks] on the line that [save_tasks]
    wrote for [t]: when the encoded title is empty, the line counts
    four fields and is skipped. *)
Lemma load_line_untitled (t : Task) (v : list Task) :
  plain_fields t -> titled t = false ->
  load_line (encode_body t) v = Some v.
Proof.
  intros Hok Ht. unfold titled in Ht. apply negb_false_iff in Ht.
  unfold load_line.
  rewrite trim_eqb, encode_body_not_blank, (split_encode_body t Hok), Ht.
  reflexivity.
Qed.

(** Otherwise the task comes back, with its encoded title. *)
Lemma load_line_titled (t : Task) (v : list Task) :
  fields_ok t -> titled t = true ->
  load_line (encode_body t) v = Some (v ++ [stored t])%list.
Proof.
  intros [Hid Hok] Ht. unfold titled in Ht. apply negb_true_iff in Ht.
  unfold load_line.
  rewrite trim_eqb, encode_body_not_blank, (split_encode_body t Hok), Ht.
  destruct Hok as [_ [_ Hdue]].
  cbn [app List.length Nat.ltb Nat.leb part nth].
  rewrite (stoi_string_of_int _ Hid).
  assert (Hdone : String.eqb (String (if done t then "1" else "0")%char "") "1"
                  = done t) by (destruct (done t); reflexivity).
  assert (Hback : (if String.eqb (match due t with Some d => d | None => "-" end) "-"
                   then None
                   else Some (match due t with Some d => d | None => "-" end))
                  = due t).
  { destruct (due t) as [d|]; [|reflexivity].
    destruct Hdue as [_ [_ Hd]].
    destruct (String.eqb_spec d "-"); [contradiction | reflexivity]. }
  rewrite Hdone, Hback. reflexivity.
Qed.

(** ** The file: written and read *)

Lemma concat_free (c d : ascii) (fs : list string) :
  c <> d -> Forall (free_of c) fs ->
  free_of c (String.concat (String d "") fs).
Proof.
  intros Hcd Hfs. induction Hfs as [|f fs Hf Hfs IH]; [reflexivity|].
  destruct fs as [|x xs]; [exact Hf|].
  rewrite concat_sep_cons. apply free_of_append; [exact Hf|].
  unfold free_of in *. cbn [mem_char]. rewrite IH.
  destruct (Ascii.eqb_spec c d); [contradiction | reflexivity].
Qed.

Lemma lines_encode_task (t : Task) :
  plain_fields t -> getlines LF (encode_task t) = [encode_body t].
Proof.
  intros Hok. destruct (fields_free t Hok) as [_ Hlf].
  unfold encode_task. rewrite getlines_field; [reflexivity|].
  apply concat_free; [discriminate | exact Hlf].
Qed.

Lemma save_tasks_app (v w : list Task) :
  save_tasks (v ++ w) = save_tasks v ++ save_tasks w.
Proof.
  induction v as [|t v IH]; simpl; [reflexivity|].
  now rewrite IH, append_assoc.
Qed.

(** The lines of the file are the lines of its records, whatever the
    records hold. *)
Lemma lines_save_tasks (v : list Task) :
  getlines LF (save_tasks v)
  = flat_map (fun t => getlines LF (encode_task t)) v.
Proof.
  induction v as [|t v IH]; [reflexivity|].
  cbn [save_tasks flat_map]. rewrite <- IH. unfold encode_task.
  rewrite append_assoc. cbn [append]. apply getlines_append.
Qed.

Lemma load_loop_app (l1 l2 : list string) (v : list Task) :
  load_loop (l1 ++ l2) v
  = match load_loop l1 v with
    | None => None
    | Some v' => load_loop l2 v'
    end.
Proof.
  revert v. induction l1 as [|l l1 IH]; intros v; [reflexivity|].
  simpl. destruct (load_line l v); [apply IH | reflexivity].
Qed.

(** Reading a file that [save_tasks] wrote: the tasks with a title come
    back in order, the others are lost. *)
Lemma load_loop_save (v acc : list Task) :
  Forall fields_ok v ->
  load_loop (getlines LF (save_tasks v)) acc
  = Some (acc ++ map stored (filter titled v))%list.
Proof.
  intros Hv. rewrite lines_save_tasks. revert acc.
  induction Hv as [|t v Ht Hv IH]; intros acc.
  - simpl. now rewrite app_nil_r.
  - cbn [flat_map filter]. rewrite load_loop_app.
    rewrite (lines_encode_task t (proj2 Ht)). cbn [load_loop].
    destruct (titled t) eqn:E.
    + rewrite (load_line_titled t acc Ht E), IH. cbn [map].
      now rewrite <- app_assoc.
    + rewrite (load_line_untitled t acc (proj2 Ht) E). apply IH.
Qed.

Lemma load_save (v : list Task) :
  Forall fields_ok v ->
  load_tasks (Some (save_tasks v)) = Some (map stored (filter titled v)).
Proof. intros Hv. exact (load_loop_save v [] Hv). Qed.

Lemma stored_id (t : Task) : encode_field (title t) = title t -> stored t = t.
Proof. destruct t as [i d p u ti]. unfold stored. simpl. now intros ->. Qed.

(** C2, as the code has it.  A task with a title that is not empty and
    holds no delimiter, newline or carriage return is read back from
    its line as it was: same id, done flag, priority, due date and
    title.  The other fields are those of the data model ([fields_ok]). *)
Theorem encode_decode_roundtrip (t : Task) :
  fields_ok t ->
  free_of SEP (title t) -> free_of LF (title t) -> free_of CR (title t) ->
  title t <> "" ->
  load_line (encode_body t) [] = Some [t]
  /\ load_tasks (Some (encode_task t)) = Some [t].
Proof.
  intros Hok Hsep Hlf Hcr Hne.
  pose proof (encode_field_id _ Hsep Hlf Hcr) as Henc.
  assert (Ht : titled t = true).
  { unfold titled. rewrite Henc.
    destruct (String.eqb_spec (title t) ""); [contradiction | reflexivity]. }
  split.
  - rewrite (load_line_titled t [] Hok Ht), (stored_id t Henc). reflexivity.
  - pose proof (load_save [t] (Forall_cons t Hok (Forall_nil _))) as H.
    cbn [save_tasks filter] in H. rewrite append_nil_r, Ht in H.
    cbn [map] in H. rewrite (stored_id t Henc) in H. exact H.
Qed.

Lemma task_milk_fields_ok : fields_ok task_milk.
Proof. repeat split; discriminate. Qed.

Lemma encode_decode_roundtrip_witness :
  fields_ok task_milk
  /\ free_of SEP (title task_milk) /\ free_of LF (title task_milk)
  /\ free_of CR (title task_milk) /\ title task_milk <> ""
  /\ load_line (encode_body task_milk) [] = Some [task_milk]
  /\ load_tasks (Some (encode_task task_milk)) = Some [task_milk].
Proof.
  assert (H1 : free_of SEP (title task_milk)) by reflexivity.
  assert (H2 : free_of LF (title task_milk)) by reflexivity.
  assert (H3 : free_of CR (title task_milk)) by reflexivity.
  assert (H4 : title task_milk <> "") by discriminate.
  exact (conj task_milk_fields_ok (conj H1 (conj H2 (conj H3 (conj H4
    (encode_decode_roundtrip task_milk task_milk_fields_ok H1 H2 H3 H4)))))).
Defined.

(** C2 as stated fails at the empty title, which holds none of the three
    characters: the line written for the task is skipped when read. *)
Lemma empty_title_not_read_back :
  free_of SEP (title task_untitled) /\ free_of LF (title task_untitled)
  /\ free_of CR (title task_untitled)
  /\ encode_task task_untitled = line "1|0|M|-|"
  /\ load_line (encode_body task_untitled) [] = Some []
  /\ load_tasks (Some (encode_task task_untitled)) <> Some [task_untitled].
Proof. vm_compute. repeat split; discriminate. Qed.

(** C10.  A task with an empty title is written as a line that ends
    with the delimiter; [split] counts four fields on it; and reading
    the saved collection gives what it gives without the task,
    whatever the other tasks are.  The priority and the due date of the
    task are those of the data model ([plain_fields]). *)
Theorem empty_title_dropped (t : Task) (v1 v2 : list Task) :
  plain_fields t -> title t = "" ->
  encode_body t
  = String.concat (String SEP "") (firstn 4 (fields t)) ++ String SEP ""
  /\ List.length (split (encode_body t) SEP) = 4%nat
  /\ load_tasks (Some (save_tasks (v1 ++ t :: v2)))
     = load_tasks (Some (save_tasks (v1 ++ v2))).
Proof.
  intros Hok Htitle.
  assert (Ht : titled t = false) by (unfold titled; now rewrite Htitle).
  split; [|split].
  - unfold encode_body, fields. rewrite Htitle.
    cbn [firstn String.concat encode_field replace_char remove_char].
    rewrite !append_assoc. reflexivity.
  - rewrite (split_encode_body t Hok).
    unfold titled in Ht. apply negb_false_iff in Ht. now rewrite Ht.
  - unfold load_tasks. rewrite !lines_save_tasks, !flat_map_app, !load_loop_app.
    destruct (load_loop (flat_map _ v1) []) as [acc|]; [|reflexivity].
    cbn [flat_map]. rewrite load_loop_app, (lines_encode_task t Hok).
    cbn [load_loop]. now rewrite (load_line_untitled t acc Hok Ht).
Qed.

Lemma empty_title_dropped_witness :
  plain_fields task_untitled /\ title task_untitled = ""
  /\ load_tasks (Some (save_tasks ([task_milk] ++ task_untitled :: [task_milk])))
     = load_tasks (Some (save_tasks ([task_milk] ++ [task_milk]))).
Proof.
  assert (H1 : plain_fields task_untitled).
  { split; [discriminate|]. split; [discriminate | exact I]. }
  assert (H2 : title task_untitled = "") by reflexivity.
  exact (conj H1 (conj H2
    (proj2 (proj2 (empty_title_dropped task_untitled [task_milk] [task_milk] H1 H2))))).
Defined.

(** ** [load_tasks] on any file *)

Lemma load_line_decode (l : string) (v : list Task) :
  load_line l v
  = if kept l
    then option_map (fun t => (v ++ [t])%list) (decode l)
    else Some v.
Proof.
  unfold load_line, kept, decode. rewrite trim_eqb.
  destruct (is_blank l); [reflexivity|]. cbn [negb andb].
  rewrite Nat.leb_antisym. destruct (List.length (split l SEP) <? 5)%nat;
    [reflexivity|]. cbn [negb].
  destruct (stoi (part 0 (split l SEP))); reflexivity.
Qed.

Lemma load_loop_decode (lines : list string) (v : list Task) :
  load_loop lines v
  = option_map (fun w => (v ++ w)%list) (decode_all (filter kept lines)).
Proof.
  revert v. induction lines as [|l lines IH]; intros v.
  - simpl. now rewrite app_nil_r.
  - cbn [load_loop filter]. rewrite load_line_decode.
    destruct (kept l); [|apply IH].
    cbn [decode_all]. destruct (decode l) as [t|]; [|reflexivity].
    cbn [option_map]. rewrite IH.
    destruct (decode_all (filter kept lines)) as [w|]; [|reflexivity].
    cbn [option_map]. now rewrite <- app_assoc.
Qed.

Lemma decode_all_none (lines : list string) :
  decode_all lines = None <-> exists l, In l lines /\ decode l = None.
Proof.
  induction lines as [|l lines IH]; simpl.
  - split; [discriminate | intros [l [[] _]]].
  - destruct (decode l) as [t|] eqn:E.
    + destruct (decode_all lines) as [w|]; simpl.
      * split; [discriminate|]. intros [l' [[<- | Hin] Hl']]; [congruence|].
        assert (Hw : Some w = None) by (apply (proj2 IH); now exists l').
        discriminate Hw.
      * split; [|reflexivity]. intros _.
        destruct (proj1 IH eq_refl) as [l' [Hin Hl']]. exists l'. auto.
    + split; [|reflexivity]. intros _. exists l. auto.
Qed.

Lemma decode_none (l : string) :
  decode l = None <-> stoi (part 0 (split l SEP)) = None.
Proof.
  unfold decode. destruct (stoi (part 0 (split l SEP))); split; congruence.
Qed.

Lemma load_tasks_decode (content : string) :
  load_tasks (Some content) = decode_all (filter kept (getlines LF content)).
Proof.
  unfold load_tasks. rewrite load_loop_decode.
  destruct (decode_all _); reflexivity.
Qed.

(** C9, as the code has it.  An absent file reads as no task.  On any
    contents, blank lines and lines with fewer than five fields are
    skipped without a word, and the other lines are decoded in file
    order; but [load_tasks] raises the exception of [std::stoi], which
    nothing catches, exactly when one of these other lines has a first
    field from which [std::stoi] reads no [int]. *)
Theorem load_tasks_spec (content : string) :
  load_tasks None = Some []
  /\ load_tasks (Some content)
     = decode_all (filter kept (getlines LF content))
  /\ (load_tasks (Some content) = None
      <-> exists l, In l (getlines LF content) /\ kept l = true
                    /\ stoi (part 0 (split l SEP)) = None).
Proof.
  pose proof (load_tasks_decode content) as Hspec.
  split; [reflexivity|]. split; [exact Hspec|].
  rewrite Hspec, decode_all_none. split.
  - intros [l [Hin Hl]]. apply filter_In in Hin. destruct Hin as [Hin Hk].
    exists l. repeat split; try assumption. now apply decode_none.
  - intros [l [Hin [Hk Hl]]]. exists l. split.
    + apply filter_In. now split.
    + now apply decode_none.
Qed.

(** When [load_tasks] throws, the runtime has an exception to name. *)
Lemma load_line_throws (l : string) (v : list Task) :
  load_line l v = None -> load_line l [] = None.
Proof.
  rewrite !load_line_decode. destruct (kept l); [|discriminate].
  destruct (decode l); [discriminate | reflexivity].
Qed.

Lemma load_line_returns (l : string) (v v' : list Task) :
  load_line l v = Some v' -> exists w, load_line l [] = Some w.
Proof.
  rewrite !load_line_decode. destruct (kept l).
  - destruct (decode l) as [t|]; [|discriminate].
    intros _. cbn [option_map]. now eexists.
  - intros _. now eexists.
Qed.

Lemma load_exception_named (lines : list string) (v : list Task) :
  load_loop lines v = None -> exists e, load_exception lines = Some e.
Proof.
  revert v. induction lines as [|l lines IH]; intros v; [discriminate|].
  cbn [load_loop load_exception].
  destruct (load_line l v) as [v'|] eqn:E.
  - destruct (load_line_returns l v v' E) as [w ->]. apply IH.
  - rewrite (load_line_throws l v E). eauto.
Qed.

Lemma terminate_message_written (file : option string) :
  load_tasks file = None -> terminate_message file <> "".
Proof.
  destruct file as [content|]; [|discriminate]. cbn [load_tasks]. intros H.
  destruct (load_exception_named _ _ H) as [e He].
  unfold terminate_message. rewrite He. discriminate.
Qed.

(** C9 as stated fails: a record with five fields and an id that is no
    number is not skipped, it ends the process. *)
Lemma bad_id_record_throws :
  load_tasks (Some file_bad_id) = None
  /\ main ["tt"; "list"] (Some file_bad_id) = terminate (Some file_bad_id).
Proof. vm_compute. split; reflexivity. Qed.

(** What [load_tasks] returns has fields that [save_tasks] can write. *)
Lemma free_of_nth (c : ascii) (parts : list string) (i : nat) :
  Forall (free_of c) parts -> free_of c (part i parts).
Proof.
  intros H. revert i. induction H as [|p parts Hp _ IH]; intros i.
  - destruct i; reflexivity.
  - destruct i as [|i]; [exact Hp | apply IH].
Qed.

Lemma decode_fields_ok (l : string) (t : Task) :
  free_of LF l -> decode l = Some t -> fields_ok t.
Proof.
  intros Hl. unfold decode.
  pose proof (getlines_free SEP l) as Hsep.
  pose proof (getlines_keep_free SEP LF l Hl) as Hlf.
  fold (split l SEP) in Hsep, Hlf.
  destruct (stoi (part 0 (split l SEP))) as [n|] eqn:En; [|discriminate].
  intros [= <-]. split; [exact (stoi_in_int _ _ En)|].
  unfold plain_fields. cbn [priority due].
  pose proof (free_of_nth SEP _ 2 Hsep) as H2s.
  pose proof (free_of_nth LF _ 2 Hlf) as H2l.
  pose proof (free_of_nth SEP _ 3 Hsep) as H3s.
  pose proof (free_of_nth LF _ 3 Hlf) as H3l.
  repeat split.
  - destruct (part 2 (split l SEP)) as [|c r]; [discriminate|].
    unfold free_of in H2s. cbn [mem_char] in H2s. apply orb_false_elim in H2s.
    destruct H2s as [H _]. intros ->. now rewrite Ascii.eqb_refl in H.
  - destruct (part 2 (split l SEP)) as [|c r]; [discriminate|].
    unfold free_of in H2l. cbn [mem_char] in H2l. apply orb_false_elim in H2l.
    destruct H2l as [H _]. intros ->. now rewrite Ascii.eqb_refl in H.
  - destruct (String.eqb_spec (part 3 (split l SEP)) "-"); [exact I|].
    repeat split; assumption.
Qed.

Lemma decode_all_fields_ok (lines : list string) (v : list Task) :
  Forall (free_of LF) lines -> decode_all lines = Some v -> Forall fields_ok v.
Proof.
  intros H. revert v. induction H as [|l lines Hl _ IH]; intros v; simpl.
  - intros [= <-]. constructor.
  - destruct (decode l) as [t|] eqn:E; [|discriminate].
    destruct (decode_all lines) as [w|]; [|discriminate].
    intros [= <-]. constructor; [exact (decode_fields_ok l t Hl E) | now apply IH].
Qed.

Lemma Forall_filter {A : Type} (P : A -> Prop) (f : A -> bool) (l : list A) :
  Forall P l -> Forall P (filter f l).
Proof.
  induction 1 as [|x l Hx _ IH]; simpl; [constructor|].
  destruct (f x); [now constructor | exact IH].
Qed.

Lemma load_tasks_fields_ok (file : option string) (v : list Task) :
  load_tasks file = Some v -> Forall fields_ok v.
Proof.
  destruct file as [content|]; [|intros [= <-]; constructor].
  rewrite load_tasks_decode.
  apply decode_all_fields_ok, Forall_filter, getlines_free.
Qed.

(** ** [done], twice *)

Lemma mark_done_found (n : Z) (v : list Task) :
  In n (map id v) -> exists v', mark_done n v = Some v'.
Proof.
  induction v as [|t v IH]; simpl; [contradiction|].
  destruct (Z.eqb_spec (id t) n) as [_ | Hne]; [eauto|].
  intros [Heq | Hin]; [contradiction|].
  destruct (IH Hin) as [v' ->]. simpl. eauto.
Qed.

Lemma mark_done_idem (n : Z) (v v' : list Task) :
  mark_done n v = Some v' -> mark_done n v' = Some v'.
Proof.
  revert v'. induction v as [|t v IH]; intros v'; simpl; [discriminate|].
  destruct (Z.eqb_spec (id t) n) as [Heq | Hne].
  - intros [= <-]. simpl. rewrite Heq, Z.eqb_refl. reflexivity.
  - destruct (mark_done n v) as [w|]; [|discriminate].
    intros [= <-]. simpl.
    destruct (Z.eqb_spec (id t) n); [contradiction|].
    now rewrite (IH w eq_refl).
Qed.

Lemma mark_done_Forall (P : Task -> Prop) (n : Z) (v v' : list Task) :
  (forall t, P t -> P (set_done t)) ->
  Forall P v -> mark_done n v = Some v' -> Forall P v'.
Proof.
  intros Hset Hv. revert v'. induction Hv as [|t v Ht Hv IH]; intros v'; simpl;
    [discriminate|].
  destruct (id t =? n).
  - intros [= <-]. constructor; auto.
  - destruct (mark_done n v) as [w|]; [|discriminate].
    intros [= <-]. constructor; auto.
Qed.

Lemma mark_done_stored (n : Z) (v : list Task) :
  mark_done n (map stored v) = option_map (map stored) (mark_done n v).
Proof.
  induction v as [|t v IH]; [reflexivity|].
  cbn [map mark_done]. change (id (stored t)) with (id t).
  destruct (id t =? n); [reflexivity|].
  rewrite IH. destruct (mark_done n v); reflexivity.
Qed.

Lemma encode_task_stored (t : Task) : encode_task (stored t) = encode_task t.
Proof.
  unfold encode_task, encode_body, fields, stored. cbn [id done priority due title].
  now rewrite encode_field_idem.
Qed.

Lemma save_tasks_stored (v : list Task) :
  save_tasks (map stored v) = save_tasks v.
Proof.
  induction v as [|t v IH]; [reflexivity|].
  cbn [map save_tasks]. now rewrite encode_task_stored, IH.
Qed.

Lemma filter_all {A : Type} (f : A -> bool) (l : list A) :
  Forall (fun x => f x = true) l -> filter f l = l.
Proof.
  induction 1 as [|x l Hx _ IH]; simpl; [reflexivity|]. now rewrite Hx, IH.
Qed.

(** C5, as the code has it.  On a store that loads, whose tasks all
    have a title that is written as a non-empty field, and that holds a
    task with the id [n], [n] not negative: [done] with an argument
    that reads as [n] exits with 0 twice in a row, and the file after
    the second run is the file after the first. *)
Theorem done_twice (prog a : string) (file : option string)
    (v : list Task) (n : Z) :
  load_tasks file = Some v ->
  Forall (fun t => titled t = true) v ->
  stoi a = Some n -> 0 <= n -> In n (map id v) ->
  exit_status (main [prog; "done"; a] file) = Exit 0
  /\ exit_status (main [prog; "done"; a]
                    (file_after (main [prog; "done"; a] file))) = Exit 0
  /\ file_after (main [prog; "done"; a]
                   (file_after (main [prog; "done"; a] file)))
     = file_after (main [prog; "done"; a] file).
Proof.
  intros Hload Htitled Ha Hn Hin.
  assert (Hmain : forall f, main [prog; "done"; a] f = cmd_done [a] f)
    by reflexivity.
  rewrite !Hmain.
  assert (Hrun : forall f w w', load_tasks f = Some w -> mark_done n w = Some w' ->
            cmd_done [a] f
            = mkOutcome (Exit 0) (Some (save_tasks w'))
                (line ("Marked #" ++ string_of_int n ++ " done.")) "").
  { intros f w w' Hf Hw. unfold cmd_done, parse_int. rewrite Ha.
    destruct (Z.ltb_spec n 0); [lia|]. now rewrite Hf, Hw. }
  destruct (mark_done_found n v Hin) as [v' Hv'].
  rewrite (Hrun file v v' Hload Hv'). cbn [exit_status file_after].
  pose proof (load_tasks_fields_ok file v Hload) as Hok.
  assert (Hok' : Forall fields_ok v').
  { apply (mark_done_Forall fields_ok n v v'); auto. }
  assert (Htitled' : Forall (fun t => titled t = true) v').
  { apply (mark_done_Forall (fun t => titled t = true) n v v'); auto. }
  assert (Hback : load_tasks (Some (save_tasks v')) = Some (map stored v')).
  { rewrite (load_save v' Hok'). now rewrite (filter_all titled v' Htitled'). }
  assert (Hagain : mark_done n (map stored v') = Some (map stored v')).
  { rewrite mark_done_stored, (mark_done_idem n v v' Hv'). reflexivity. }
  rewrite (Hrun _ _ _ Hback Hagain). cbn [exit_status file_after].
  now rewrite save_tasks_stored.
Qed.

Lemma done_twice_witness :
  load_tasks (Some file1) = Some [mkTask 1 true "M" (Some "2024-01-01") "pay rent";
                                  task_milk;
                                  mkTask 3 false "L" None "call home"]
  /\ file_after (main ["tt"; "done"; "2"]
                   (file_after (main ["tt"; "done"; "2"] (Some file1))))
     = file_after (main ["tt"; "done"; "2"] (Some file1)).
Proof.
  assert (Hload : load_tasks (Some file1)
                  = Some [mkTask 1 true "M" (Some "2024-01-01") "pay rent";
                          task_milk;
                          mkTask 3 false "L" None "call home"])
    by (vm_compute; reflexivity).
  split; [exact Hload|].
  refine (proj2 (proj2 (done_twice "tt" "2" (Some file1) _ 2 Hload _ _ _ _))).
  - repeat constructor.
  - reflexivity.
  - lia.
  - simpl. right. left. reflexivity.
Defined.

(** C5 as stated fails on a file with a six-field line, whose fifth
    field (the title) is empty: the store holds task 1, [done 1] exits
    with 0 and writes a line of four fields, and the second [done 1]
    finds no task.  It also fails on a stored id that is negative,
    which the guard of [done] refuses. *)
Lemma done_twice_fails :
  option_map (map id) (load_tasks (Some file_six_fields)) = Some [1]
  /\ main ["tt"; "done"; "1"] (Some file_six_fields)
     = mkOutcome (Exit 0) (Some (line "1|1|M|-|")) (line "Marked #1 done.") ""
  /\ main ["tt"; "done"; "1"] (Some (line "1|1|M|-|"))
     = fail (Some (line "1|1|M|-|")) (line "Task not found.")
  /\ option_map (map id) (load_tasks (Some file_negative_id)) = Some [-5]
  /\ main ["tt"; "done"; "-5"] (Some file_negative_id)
     = fail (Some file_negative_id) (line "Invalid id.").
Proof. vm_compute. repeat split; reflexivity. Qed.

(** ** Orders with ties *)

Section OrderCmp.
Context {A : Type} (cmp : A -> A -> comparison) (Hcmp : order_cmp cmp).

Lemma cmp_refl (a : A) : cmp a a = Eq.
Proof.
  pose proof (cmp_sym cmp Hcmp a a) as H. destruct (cmp a a); try discriminate.
  reflexivity.
Qed.

Lemma cmp_eq_sym (a b : A) : cmp a b = Eq -> cmp b a = Eq.
Proof. intros H. now rewrite (cmp_sym cmp Hcmp a b), H. Qed.

Lemma cmp_eq_r (a b c : A) : cmp b c = Eq -> cmp a b = cmp a c.
Proof.
  intros H. apply cmp_eq_sym in H.
  pose proof (cmp_eq_l cmp Hcmp c b a H) as E.
  rewrite (cmp_sym cmp Hcmp a c), (cmp_sym cmp Hcmp a b) in E.
  destruct (cmp a b), (cmp a c); simpl in E; congruence.
Qed.

Lemma cmp_le_trans (a b c : A) :
  cmp a b <> Gt -> cmp b c <> Gt -> cmp a c <> Gt.
Proof.
  intros Hab Hbc.
  destruct (cmp a b) eqn:Eab; [| |contradiction].
  - now rewrite (cmp_eq_l cmp Hcmp a b c Eab).
  - destruct (cmp b c) eqn:Ebc; [| |contradiction].
    + rewrite <- (cmp_eq_r a b c Ebc), Eab. discriminate.
    + rewrite (cmp_lt_trans cmp Hcmp a b c Eab Ebc). discriminate.
Qed.

Lemma tied_refl (a : A) : tied cmp a a = true.
Proof. unfold tied. now rewrite cmp_refl. Qed.
End OrderCmp.

(** The orders that the comparator is made of. *)

Lemma order_cmp_Z {A : Type} (f : A -> Z) :
  order_cmp (fun a b => Z.compare (f a) (f b)).
Proof.
  constructor.
  - intros a b. apply Z.compare_antisym.
  - intros a b c H. apply Z.compare_eq in H. now rewrite H.
  - intros a b c H1 H2. rewrite Z.compare_lt_iff in *. lia.
Qed.

Lemma ascii_compare_refl (c : ascii) : Ascii.compare c c = Eq.
Proof. apply N.compare_refl. Qed.

Lemma string_compare_refl (s : string) : String.compare s s = Eq.
Proof.
  induction s as [|c s IH]; [reflexivity|]. simpl.
  now rewrite ascii_compare_refl.
Qed.

Lemma string_compare_eq (s1 s2 : string) :
  String.compare s1 s2 = Eq <-> s1 = s2.
Proof.
  split; [apply String.compare_eq_iff|]. intros ->. apply string_compare_refl.
Qed.

Lemma string_compare_lt_trans (s1 s2 s3 : string) :
  String.compare s1 s2 = Lt -> String.compare s2 s3 = Lt ->
  String.compare s1 s3 = Lt.
Proof.
  revert s2 s3. induction s1 as [|c1 s1 IH]; intros [|c2 s2] [|c3 s3]; simpl;
    try discriminate; try reflexivity.
  unfold Ascii.compare.
  destruct (N.compare_spec (N_of_ascii c1) (N_of_ascii c2)) as [E12 | L12 | G12];
    [| |discriminate];
  destruct (N.compare_spec (N_of_ascii c2) (N_of_ascii c3)) as [E23 | L23 | G23];
    try discriminate; intros H12 H23.
  - rewrite E12, E23, N.compare_refl. eapply IH; eassumption.
  - rewrite E12. now apply N.compare_lt_iff in L23 as ->.
  - rewrite <- E23. now apply N.compare_lt_iff in L12 as ->.
  - assert (L13 : (N_of_ascii c1 < N_of_ascii c3)%N) by lia.
    now apply N.compare_lt_iff in L13 as ->.
Qed.

Lemma order_cmp_string {A : Type} (f : A -> string) :
  order_cmp (fun a b => String.compare (f a) (f b)).
Proof.
  constructor.
  - intros a b. apply String.compare_antisym.
  - intros a b c H. apply String.compare_eq_iff in H. now rewrite H.
  - intros a b c. apply string_compare_lt_trans.
Qed.

Lemma order_cmp_done : order_cmp compare_done.
Proof.
  unfold compare_done. constructor.
  - intros a b. destruct (done a), (done b); reflexivity.
  - intros a b c. destruct (done a), (done b), (done c); simpl; congruence.
  - intros a b c. destruct (done a), (done b), (done c); simpl; congruence.
Qed.

Lemma order_cmp_none {A : Type} : order_cmp (fun _ _ : A => Eq).
Proof. constructor; intros; simpl; congruence. Qed.

Lemma order_cmp_lex {A : Type} (c1 c2 : A -> A -> comparison) :
  order_cmp c1 -> order_cmp c2 -> order_cmp (fun a b => lex (c1 a b) (c2 a b)).
Proof.
  intros H1 H2. constructor.
  - intros a b. rewrite (cmp_sym c1 H1 a b), (cmp_sym c2 H2 a b).
    destruct (c1 a b); reflexivity.
  - intros a b c. unfold lex.
    destruct (c1 a b) eqn:E1; try discriminate. intros E2.
    rewrite (cmp_eq_l c1 H1 a b c E1), (cmp_eq_l c2 H2 a b c E2). reflexivity.
  - intros a b c. unfold lex.
    destruct (c1 a b) eqn:Eab; try discriminate;
      destruct (c1 b c) eqn:Ebc; try discriminate; intros Hab Hbc.
    + rewrite (cmp_eq_l c1 H1 a b c Eab), Ebc. eapply (cmp_lt_trans c2 H2); eassumption.
    + now rewrite (cmp_eq_l c1 H1 a b c Eab), Ebc.
    + now rewrite <- (cmp_eq_r c1 H1 a b c Ebc), Eab.
    + now rewrite (cmp_lt_trans c1 H1 a b c Eab Ebc).
Qed.

Lemma order_cmp_key (sort_key : string) : order_cmp (compare_key sort_key).
Proof.
  unfold compare_key.
  destruct (String.eqb sort_key "due"); [apply order_cmp_string|].
  destruct (String.eqb sort_key "priority"); [apply order_cmp_Z|].
  destruct (String.eqb sort_key "id"); [apply order_cmp_Z | apply order_cmp_none].
Qed.

Lemma order_cmp_spec (sort_key : string) : order_cmp (spec_compare sort_key).
Proof.
  unfold spec_compare.
  apply order_cmp_lex; [apply order_cmp_done|].
  apply order_cmp_lex; [apply order_cmp_key|].
  apply order_cmp_lex; [apply order_cmp_string|].
  apply order_cmp_lex; apply order_cmp_Z.
Qed.

(** ** The comparator of [list_cmd] is the order of the specification *)

Lemma string_eqb_compare (x y : string) :
  String.eqb x y = match String.compare x y with Eq => true | _ => false end.
Proof.
  destruct (String.eqb_spec x y) as [-> | Hne].
  - now rewrite string_compare_refl.
  - destruct (String.compare x y) eqn:E; try reflexivity.
    apply String.compare_eq_iff in E. contradiction.
Qed.

Lemma Z_eqb_compare (x y : Z) :
  (x =? y) = match x ?= y with Eq => true | _ => false end.
Proof.
  destruct (Z.eqb_spec x y) as [-> | Hne].
  - now rewrite Z.compare_refl.
  - destruct (x ?= y) eqn:E; try reflexivity.
    apply Z.compare_eq in E. contradiction.
Qed.

Lemma less_by_string (x y : string) (rest : bool) (c : comparison) :
  rest = is_Lt c ->
  (if negb (String.eqb x y) then String.ltb x y else rest)
  = is_Lt (lex (String.compare x y) c).
Proof.
  intros ->. rewrite string_eqb_compare. unfold String.ltb.
  destruct (String.compare x y); reflexivity.
Qed.

Lemma less_by_Z (x y : Z) (rest : bool) (c : comparison) :
  rest = is_Lt c ->
  (if negb (x =? y) then x <? y else rest) = is_Lt (lex (x ?= y) c).
Proof.
  intros ->. rewrite Z_eqb_compare. unfold Z.ltb.
  destruct (x ?= y); reflexivity.
Qed.

(** The two helpers of the comparator are the ones of the
    specification: the sentinel of an absent due date, and the weights
    0, 1 and 2 of H, M and L. *)
Lemma due_or_sentinel_spec (t : Task) : due_or_sentinel t = spec_due t.
Proof. unfold due_or_sentinel, spec_due. destruct (due t); reflexivity. Qed.

Lemma prio_weight_spec (p : ascii) : prio_weight p = spec_weight p.
Proof.
  destruct p as [[|] [|] [|] [|] [|] [|] [|] [|]]; reflexivity.
Qed.

Lemma less_tail_spec (a b : Task) :
  less_tail a b
  = is_Lt (lex (compare_due a b) (lex (compare_weight a b) (compare_id a b))).
Proof.
  unfold less_tail, compare_due, compare_weight. cbv zeta.
  rewrite !due_or_sentinel_spec, !prio_weight_spec.
  apply less_by_string. apply less_by_Z. reflexivity.
Qed.

Lemma task_less_spec (sort_key : string) (a b : Task) :
  task_less sort_key a b = is_Lt (spec_compare sort_key a b).
Proof.
  unfold task_less, spec_compare, compare_key, compare_done. cbv zeta.
  rewrite !due_or_sentinel_spec, !prio_weight_spec.
  destruct (done a), (done b); cbn [Bool.eqb negb lex is_Lt]; try reflexivity.
  all: destruct (String.eqb sort_key "due");
    [apply less_by_string, less_tail_spec|];
    destruct (String.eqb sort_key "priority");
    [apply less_by_Z, less_tail_spec|];
    destruct (String.eqb sort_key "id");
    [apply less_by_Z, less_tail_spec | apply less_tail_spec].
Qed.

(** ** [std::stable_sort] *)

Section StableSortFacts.
Context {A : Type} (cmp : A -> A -> comparison) (Hcmp : order_cmp cmp).
Context (less : A -> A -> bool) (Hless : forall a b, less a b = is_Lt (cmp a b)).

Lemma insert_left_perm (x : A) (l : list A) :
  Permutation (x :: l) (insert_left less x l).
Proof.
  induction l as [|y l IH]; simpl; [reflexivity|].
  destruct (less y x); [|reflexivity].
  rewrite perm_swap. now constructor.
Qed.

Lemma stable_sort_perm (l : list A) : Permutation l (stable_sort less l).
Proof.
  induction l as [|x l IH]; simpl; [reflexivity|].
  rewrite <- insert_left_perm. now constructor.
Qed.

Lemma insert_left_sorted (x : A) (l : list A) :
  StronglySorted (fun a b => cmp a b <> Gt) l ->
  StronglySorted (fun a b => cmp a b <> Gt) (insert_left less x l).
Proof.
  induction 1 as [|y l Hl IH Hy]; simpl.
  - constructor; constructor.
  - rewrite Hless. destruct (cmp y x) eqn:Eyx; cbn [is_Lt].
    + constructor; [now constructor|]. constructor.
      * rewrite (cmp_sym cmp Hcmp y x), Eyx. discriminate.
      * apply Forall_forall. intros z Hz.
        rewrite Forall_forall in Hy.
        apply (cmp_le_trans cmp Hcmp x y z); [|now apply Hy].
        rewrite (cmp_sym cmp Hcmp y x), Eyx. discriminate.
    + constructor; [exact IH|].
      apply (Permutation_Forall (insert_left_perm x l)).
      constructor; [rewrite Eyx; discriminate | exact Hy].
    + constructor; [now constructor|]. constructor.
      * rewrite (cmp_sym cmp Hcmp y x), Eyx. discriminate.
      * apply Forall_forall. intros z Hz.
        rewrite Forall_forall in Hy.
        apply (cmp_le_trans cmp Hcmp x y z); [|now apply Hy].
        rewrite (cmp_sym cmp Hcmp y x), Eyx. discriminate.
Qed.

Lemma stable_sort_sorted (l : list A) :
  StronglySorted (fun a b => cmp a b <> Gt) (stable_sort less l).
Proof.
  induction l as [|x l IH]; simpl; [constructor|].
  now apply insert_left_sorted.
Qed.

Lemma tied_both (x y z : A) :
  tied cmp x y = true -> tied cmp x z = true -> cmp y z = Eq.
Proof.
  unfold tied. destruct (cmp x y) eqn:Exy; try discriminate.
  destruct (cmp x z) eqn:Exz; try discriminate. intros _ _.
  now rewrite <- (cmp_eq_l cmp Hcmp x y z Exy).
Qed.

Lemma insert_left_tied (x a : A) (l : list A) :
  filter (tied cmp x) (insert_left less a l) = filter (tied cmp x) (a :: l).
Proof.
  induction l as [|y l IH]; [reflexivity|].
  cbn [insert_left]. rewrite Hless.
  destruct (cmp y a) eqn:Eya; cbn [is_Lt]; try reflexivity.
  cbn [filter] in *. rewrite IH.
  destruct (tied cmp x y) eqn:Ty; [|reflexivity].
  destruct (tied cmp x a) eqn:Ta; [|reflexivity].
  rewrite (tied_both x y a Ty Ta) in Eya. discriminate.
Qed.

Lemma stable_sort_stable (l : list A) (x : A) :
  filter (tied cmp x) (stable_sort less l) = filter (tied cmp x) l.
Proof.
  induction l as [|a l IH]; [reflexivity|].
  cbn [stable_sort]. rewrite insert_left_tied. cbn [filter]. now rewrite IH.
Qed.

Lemma stable_sort_stably_sorted (l : list A) :
  stably_sorted cmp l (stable_sort less l).
Proof.
  split; [apply stable_sort_perm|].
  split; [apply stable_sort_sorted | apply stable_sort_stable].
Qed.

Lemma filter_tied_head (a : A) (l : list A) :
  exists r, filter (tied cmp a) (a :: l) = a :: r.
Proof. cbn [filter]. rewrite (tied_refl cmp Hcmp). eauto. Qed.

Lemma filter_head_in (f : A -> bool) (l r : list A) (b : A) :
  filter f l = b :: r -> In b l.
Proof.
  intros H. assert (Hin : In b (filter f l)) by (rewrite H; now left).
  now apply filter_In in Hin.
Qed.

(** Two sorted lists with the same classes of tied elements, each in
    the same order, are one list: the result of a stable sort does
    not depend on the algorithm. *)
Lemma stable_sorted_unique (l1 l2 : list A) :
  StronglySorted (fun a b => cmp a b <> Gt) l1 ->
  StronglySorted (fun a b => cmp a b <> Gt) l2 ->
  (forall x, filter (tied cmp x) l1 = filter (tied cmp x) l2) ->
  l1 = l2.
Proof.
  intros H1. revert l2. induction H1 as [|a l1 Hs1 IH Ha]; intros l2 H2 Hcls.
  - destruct l2 as [|b l2]; [reflexivity|].
    destruct (filter_tied_head b l2) as [r Hr].
    specialize (Hcls b). rewrite Hr in Hcls. discriminate.
  - destruct l2 as [|b l2].
    { destruct (filter_tied_head a l1) as [r Hr].
      specialize (Hcls a). rewrite Hr in Hcls. discriminate. }
    assert (Hab : a = b).
    { destruct (filter_tied_head a l1) as [ra Hra].
      destruct (filter_tied_head b l2) as [rb Hrb].
      destruct (cmp a b) eqn:Eab.
      - pose proof (Hcls a) as Hc. rewrite Hra in Hc. cbn [filter] in Hc.
        unfold tied at 1 in Hc. rewrite Eab in Hc. congruence.
      - pose proof (Hcls a) as Hc. rewrite Hra in Hc. symmetry in Hc.
        apply filter_head_in in Hc. destruct Hc as [<- | Hin].
        + rewrite (cmp_refl cmp Hcmp) in Eab. discriminate.
        + inversion H2 as [|? ? _ Hb]; subst.
          rewrite Forall_forall in Hb. specialize (Hb a Hin).
          rewrite (cmp_sym cmp Hcmp a b), Eab in Hb. now contradiction Hb.
      - pose proof (Hcls b) as Hc. rewrite Hrb in Hc.
        apply filter_head_in in Hc. destruct Hc as [-> | Hin].
        + rewrite (cmp_refl cmp Hcmp) in Eab. discriminate.
        + rewrite Forall_forall in Ha. specialize (Ha b Hin).
          now contradiction Ha. }
    subst b. f_equal. apply IH.
    + now inversion H2.
    + intros x. specialize (Hcls x). cbn [filter] in Hcls.
      destruct (tied cmp x a); congruence.
Qed.

Lemma stably_sorted_unique (v l : list A) :
  stably_sorted cmp v l -> l = stable_sort less v.
Proof.
  intros [_ [Hs Hc]]. apply stable_sorted_unique; [exact Hs | |].
  - apply stable_sort_sorted.
  - intros x. now rewrite Hc, stable_sort_stable.
Qed.
End StableSortFacts.

(** ** [list] *)

Lemma rows_cons (t : Task) (v : list Task) :
  rows (t :: v) = print_task t ++ rows v.
Proof.
  unfold rows. destruct v as [|u v]; [|reflexivity].
  simpl. now rewrite append_nil_r.
Qed.

(** The loop with its two [continue]s prints the rows of the tasks that
    match the filter, in the order of the vector. *)
Lemma list_loop_rows (f : ListFilter) (v : list Task) :
  list_loop f v = rows (filter (matches f) v).
Proof.
  induction v as [|t v IH]; [reflexivity|].
  cbn [list_loop filter]. rewrite IH.
  destruct f; cbn [is_pending is_done matches andb];
    destruct (done t); cbn [andb negb];
    try reflexivity; now rewrite rows_cons.
Qed.

(** [print_task] writes the row of the specification. *)
Lemma print_task_spec (t : Task) : print_task t = spec_row t.
Proof.
  unfold print_task, spec_row. cbn [String.concat].
  rewrite !append_assoc. reflexivity.
Qed.

Lemma rows_spec (v : list Task) : rows v = spec_rows v.
Proof.
  induction v as [|t v IH]; [reflexivity|].
  rewrite rows_cons, print_task_spec, IH. reflexivity.
Qed.

(** C1.  For the collection [v] that the file holds, [list] prints the
    rows ([spec_rows]) of the tasks that match the filter, taken in
    order from the one list that is [v] stably sorted by the order of
    the specification.  That order, [spec_compare], is written without
    the helpers of the code: incomplete first; then the requested key
    if it is one of the three (due dates as strings with an absent one
    as ["9999-99-99"], weights H = 0, M = 1, L = 2, ids as numbers);
    then due date, weight and id.  The rows are a filter of the sorted
    collection, so their relative order is the sorted one. *)
Theorem list_cmd_spec (f : ListFilter) (sort_key : string)
    (file : option string) (v : list Task) :
  load_tasks file = Some v ->
  exists sorted,
    stably_sorted (spec_compare sort_key) v sorted
    /\ (forall l, stably_sorted (spec_compare sort_key) v l -> l = sorted)
    /\ list_cmd f sort_key file = Some (spec_rows (filter (matches f) sorted)).
Proof.
  intros Hload. exists (stable_sort (task_less sort_key) v).
  pose proof (order_cmp_spec sort_key) as Hord.
  pose proof (task_less_spec sort_key) as Hless.
  split; [|split].
  - exact (stable_sort_stably_sorted _ Hord _ Hless v).
  - intros l Hl. exact (stably_sorted_unique _ Hord _ Hless v l Hl).
  - unfold list_cmd. rewrite Hload, list_loop_rows, rows_spec. reflexivity.
Qed.

Lemma list_cmd_spec_witness :
  load_tasks (Some file1)
  = Some [mkTask 1 true "M" (Some "2024-01-01") "pay rent"; task_milk;
          mkTask 3 false "L" None "call home"]
  /\ exists sorted,
       stably_sorted (spec_compare "due")
         [mkTask 1 true "M" (Some "2024-01-01") "pay rent"; task_milk;
          mkTask 3 false "L" None "call home"] sorted
       /\ (forall l,
             stably_sorted (spec_compare "due")
               [mkTask 1 true "M" (Some "2024-01-01") "pay rent"; task_milk;
                mkTask 3 false "L" None "call home"] l -> l = sorted)
       /\ list_cmd Pending "due" (Some file1)
          = Some (spec_rows (filter (matches Pending) sorted)).
Proof.
  assert (Hload : load_tasks (Some file1)
                  = Some [mkTask 1 true "M" (Some "2024-01-01") "pay rent";
                          task_milk; mkTask 3 false "L" None "call home"])
    by (vm_compute; reflexivity).
  exact (conj Hload (list_cmd_spec Pending "due" (Some file1) _ Hload)).
Defined.

(** ** [add]: the title *)

Lemma join_loop_from (i : nat) (parts : list string) (title : string) :
  join_loop (S i) parts title
  = match parts with
    | [] => title
    | _ => title ++ " " ++ String.concat " " parts
    end.
Proof.
  revert i title. induction parts as [|p r IH]; intros i title; [reflexivity|].
  cbn [join_loop Nat.eqb]. rewrite IH.
  destruct r as [|q r]; cbn [String.concat]; now rewrite !append_assoc.
Qed.

(** The loop of [add] joins the title parts with single spaces. *)
Lemma join_loop_concat (parts : list string) :
  join_loop 0 parts "" = String.concat " " parts.
Proof.
  destruct parts as [|p r]; [reflexivity|].
  cbn [join_loop Nat.eqb append]. rewrite join_loop_from.
  destruct r; [reflexivity | reflexivity].
Qed.

(** What [add] does when its loop ends without an error, with the
    title parts [parts] (the arguments that are neither flags nor flag
    values): without a part it fails; otherwise the task it appends has
    the parts joined by single spaces and trimmed as its title, empty
    or not. *)
Lemma add_title (prog : string) (args : list string) (pr : ascii)
    (du : option string) (parts : list string) (file : option string) :
  add_at args [] pr du parts ->
  (parts = [] ->
   main (prog :: "add" :: args) file = fail file (line "Error: title required."))
  /\ (parts <> [] -> forall v, load_tasks file = Some v ->
      main (prog :: "add" :: args) file
      = mkOutcome (Exit 0)
          (Some (save_tasks
                   (v ++ [mkTask (next_id v) false pr du
                            (trim (String.concat " " parts))])))
          (line ("Added task #" ++ string_of_int (next_id v))) "").
Proof.
  intros Hat.
  assert (Hmain : main (prog :: "add" :: args) file = cmd_add args file)
    by reflexivity.
  rewrite Hmain. destruct args as [|a args].
  - inversion Hat; subst.
    + split; [reflexivity | intros H; contradiction].
    + match goal with H : add_at [] (_ :: _) _ _ _ |- _ =>
        apply add_at_length in H; simpl in H; lia end.
    + match goal with H : add_at [] (_ :: _) _ _ _ |- _ =>
        apply add_at_length in H; simpl in H; lia end.
    + match goal with H : add_at [] (_ :: _) _ _ _ |- _ =>
        apply add_at_length in H; simpl in H; lia end.
  - rewrite cmd_add_loop by discriminate.
    rewrite (add_at_loop _ _ _ _ _ Hat). cbn [add_loop]. split.
    + intros ->. reflexivity.
    + intros Hne v Hv. destruct parts as [|w parts]; [contradiction|].
      now rewrite Hv, join_loop_concat.
Qed.

(** * Further properties of the code *)

(** ** [list_cmd]: filtering and sorting *)

Lemma StronglySorted_filter {A : Type} (R : A -> A -> Prop) (p : A -> bool)
    (l : list A) :
  StronglySorted R l -> StronglySorted R (filter p l).
Proof.
  induction 1 as [|a l Hl IH Ha]; simpl; [constructor|].
  destruct (p a); [|exact IH].
  constructor; [exact IH | now apply Forall_filter].
Qed.

Lemma StronglySorted_weaken {A : Type} (R R' : A -> A -> Prop) (l : list A) :
  (forall a b, R a b -> R' a b) -> StronglySorted R l -> StronglySorted R' l.
Proof.
  intros HR. induction 1 as [|a l Hl IH Ha]; constructor; [exact IH|].
  eapply Forall_impl; [|exact Ha]. intros b. apply HR.
Qed.

Lemma filter_comm {A : Type} (p q : A -> bool) (l : list A) :
  filter p (filter q l) = filter q (filter p l).
Proof.
  induction l as [|a l IH]; [reflexivity|]. simpl.
  destruct (p a) eqn:Ep, (q a) eqn:Eq; simpl; rewrite ?Ep, ?Eq, IH; reflexivity.
Qed.

(** Filtering a stably sorted list is sorting the filtered list. *)
Lemma stable_sort_filter {A : Type} (cmp : A -> A -> comparison)
    (less : A -> A -> bool) (p : A -> bool) (l : list A) :
  order_cmp cmp -> (forall a b, less a b = is_Lt (cmp a b)) ->
  filter p (stable_sort less l) = stable_sort less (filter p l).
Proof.
  intros Hcmp Hless. apply (stable_sorted_unique cmp Hcmp).
  - apply StronglySorted_filter. now apply (stable_sort_sorted cmp Hcmp).
  - now apply (stable_sort_sorted cmp Hcmp).
  - intros x. rewrite filter_comm, !(stable_sort_stable cmp Hcmp less Hless).
    apply filter_comm.
Qed.

(** X1.  Sorting and then filtering, as [list_cmd] does, prints what
    filtering and then sorting would print: for every filter, sort key
    and file, the output is the rows of the matching tasks, stably
    sorted among themselves. *)
Theorem list_filter_then_sort (f : ListFilter) (sort_key : string)
    (file : option string) :
  list_cmd f sort_key file
  = option_map
      (fun v => rows (stable_sort (task_less sort_key) (filter (matches f) v)))
      (load_tasks file).
Proof.
  unfold list_cmd. destruct (load_tasks file) as [v|]; [|reflexivity].
  cbn [option_map]. rewrite list_loop_rows.
  now rewrite (stable_sort_filter (spec_compare sort_key) _ _ _
                 (order_cmp_spec sort_key) (task_less_spec sort_key)).
Qed.

Lemma rows_app (v w : list Task) : rows (v ++ w) = rows v ++ rows w.
Proof.
  induction v as [|t v IH]; [reflexivity|].
  change ((t :: v) ++ w)%list with (t :: (v ++ w))%list.
  now rewrite !rows_cons, IH, append_assoc.
Qed.

(** In a list sorted by the order of [list], no completed task comes
    before an incomplete one. *)
Lemma sorted_pending_first (sort_key : string) (l : list Task) :
  StronglySorted (fun a b => spec_compare sort_key a b <> Gt) l ->
  l = (filter (matches Pending) l ++ filter (matches Done) l)%list.
Proof.
  induction 1 as [|a l Hl IH Ha]; [reflexivity|].
  cbn [filter matches]. destruct (done a) eqn:Ea; cbn [negb app].
  - assert (Hall : Forall (fun b => done b = true) l).
    { eapply Forall_impl; [|exact Ha]. intros b Hb.
      destruct (done b) eqn:Eb; [reflexivity|]. exfalso. apply Hb.
      unfold spec_compare, compare_done. now rewrite Ea, Eb. }
    assert (Hp : filter (matches Pending) l = []).
    { clear IH Ha Hl. induction Hall as [|b l Hb _ IH]; [reflexivity|].
      cbn [filter matches]. rewrite Hb. exact IH. }
    assert (Hd : filter (matches Done) l = l).
    { clear IH Ha Hl Hp. induction Hall as [|b l Hb _ IH]; [reflexivity|].
      cbn [filter matches]. now rewrite Hb, IH. }
    now rewrite Hp, Hd.
  - now rewrite <- IH.
Qed.

(** X2.  What [list --all] prints is what [list --pending] prints
    followed by what [list --done] prints, for every sort key and every
    file (and the three end alike when [load_tasks] throws). *)
Theorem list_all_is_pending_then_done (sort_key : string)
    (file : option string) :
  list_cmd All sort_key file
  = match list_cmd Pending sort_key file, list_cmd Done sort_key file with
    | Some p, Some d => Some (p ++ d)
    | _, _ => None
    end.
Proof.
  unfold list_cmd. destruct (load_tasks file) as [v|]; [|reflexivity].
  rewrite !list_loop_rows, <- rows_app. do 2 f_equal.
  set (l := stable_sort (task_less sort_key) v).
  assert (Hall : filter (matches All) l = l).
  { clear. induction l as [|a l IH]; [reflexivity|]. simpl. now rewrite IH. }
  rewrite Hall. apply (sorted_pending_first sort_key).
  apply (stable_sort_sorted _ (order_cmp_spec sort_key) _
           (task_less_spec sort_key)).
Qed.

Lemma string_leb_compare (x y : string) :
  String.compare x y <> Gt -> String.leb x y = true.
Proof. unfold String.leb. destruct (String.compare x y); congruence. Qed.

Lemma lex_not_Gt (c1 c2 : comparison) : lex c1 c2 <> Gt -> c1 <> Gt.
Proof. destruct c1; simpl; congruence. Qed.

(** X3.  In the vector that [list_cmd] sorts, two tasks with the same
    done flag stand in the order of the key: by weight of priority for
    ["priority"], by id for ["id"], and by due date (an absent one as
    ["9999-99-99"]) for ["due"] and for any other key. *)
Theorem list_order_in_bucket (sort_key : string) (v : list Task) :
  StronglySorted (fun a b => done a = done b -> key_le sort_key a b)
    (stable_sort (task_less sort_key) v).
Proof.
  apply (StronglySorted_weaken (fun a b => spec_compare sort_key a b <> Gt)).
  - intros a b Hab Hdone. unfold spec_compare, compare_done in Hab.
    rewrite Hdone in Hab.
    assert (Htail : lex (compare_key sort_key a b)
                      (lex (compare_due a b)
                         (lex (compare_weight a b) (compare_id a b))) <> Gt).
    { destruct (done b); exact Hab. }
    clear Hab. unfold key_le, compare_key in *.
    destruct (String.eqb_spec sort_key "due") as [-> | Hdue].
    + cbn [String.eqb Ascii.eqb Bool.eqb]. apply lex_not_Gt in Htail.
      now apply string_leb_compare.
    + destruct (String.eqb sort_key "priority").
      * apply lex_not_Gt in Htail. unfold compare_weight in Htail.
        now apply Z.compare_le_iff.
      * destruct (String.eqb sort_key "id").
        -- apply lex_not_Gt in Htail. now apply Z.compare_le_iff.
        -- cbn [lex] in Htail. apply lex_not_Gt in Htail.
           now apply string_leb_compare.
  - apply (stable_sort_sorted _ (order_cmp_spec sort_key) _
             (task_less_spec sort_key)).
Qed.

Lemma stable_sort_ext {A : Type} (less less' : A -> A -> bool) (l : list A) :
  (forall a b, less a b = less' a b) ->
  stable_sort less l = stable_sort less' l.
Proof.
  intros H. induction l as [|x l IH]; [reflexivity|].
  cbn [stable_sort]. rewrite IH. generalize (stable_sort less' l) as s.
  induction s as [|y s IHs]; [reflexivity|].
  cbn [insert_left]. now rewrite H, IHs.
Qed.

(** X4.  A sort key that is neither ["priority"] nor ["id"] is not an
    error: [list] then sorts as for ["due"], whatever the key is. *)
Theorem list_unknown_key_is_due (f : ListFilter) (sort_key : string)
    (file : option string) :
  sort_key <> "priority" -> sort_key <> "id" ->
  list_cmd f sort_key file = list_cmd f "due" file.
Proof.
  intros Hp Hi. unfold list_cmd. destruct (load_tasks file) as [v|]; [|reflexivity].
  do 2 f_equal. apply stable_sort_ext. intros a b. unfold task_less.
  destruct (negb (Bool.eqb (done a) (done b))); [reflexivity|].
  destruct (String.eqb_spec sort_key "due") as [-> | _]; [reflexivity|].
  destruct (String.eqb_spec sort_key "priority"); [contradiction|].
  destruct (String.eqb_spec sort_key "id"); [contradiction|].
  cbn [String.eqb Ascii.eqb Bool.eqb]. cbv zeta. unfold less_tail. cbv zeta.
  destruct (negb (String.eqb (due_or_sentinel a) (due_or_sentinel b)));
    reflexivity.
Qed.

Lemma list_unknown_key_is_due_witness :
  "title" <> "priority" /\ "title" <> "id"
  /\ list_cmd Pending "title" (Some file1) = list_cmd Pending "due" (Some file1).
Proof.
  assert (H1 : "title" <> "priority") by discriminate.
  assert (H2 : "title" <> "id") by discriminate.
  exact (conj H1 (conj H2
    (list_unknown_key_is_due Pending "title" (Some file1) H1 H2))).
Defined.

(** ** [split], [encode_field] and the numbers *)

Lemma getlines_nil (d : ascii) (s : string) : getlines d s = [] -> s = "".
Proof.
  destruct s as [|c r]; [reflexivity|]. intros H. exfalso. revert H.
  now apply getlines_nonempty.
Qed.

Lemma concat_String (d c : ascii) (cur : string) (parts : list string) :
  String.concat (String d "") (String c cur :: parts)
  = String c (String.concat (String d "") (cur :: parts)).
Proof. destruct parts; reflexivity. Qed.

Lemma ends_with_cons (d x y : ascii) (r : string) :
  ends_with d (String x (String y r)) = ends_with d (String y r).
Proof. reflexivity. Qed.

(** The line is its parts joined by the delimiter, plus the delimiter
    that ends the line when there is one. *)
Lemma split_joined (line : string) (delim : ascii) :
  line
  = String.concat (String delim "") (split line delim)
    ++ (if ends_with delim line then String delim "" else "").
Proof.
  unfold split. induction line as [|c r IH]; [reflexivity|].
  cbn [getlines]. destruct (Ascii.eqb_spec c delim) as [-> | Hne].
  - destruct r as [|y r'].
    + cbn. now rewrite Ascii.eqb_refl.
    + rewrite ends_with_cons.
      destruct (getlines delim (String y r')) as [|p ps] eqn:E.
      { apply getlines_nil in E. discriminate E. }
      rewrite concat_sep_cons. cbn [append]. now rewrite <- IH.
  - destruct r as [|y r'].
    + cbn. destruct (Ascii.eqb_spec c delim); [contradiction | reflexivity].
    + rewrite ends_with_cons.
      destruct (getlines delim (String y r')) as [|p ps] eqn:E.
      { apply getlines_nil in E. discriminate E. }
      rewrite concat_String. cbn [append]. now rewrite <- IH.
Qed.

(** X5.  [split] returns parts without the delimiter, none for the
    empty line only.  The line is its parts joined by the delimiter,
    followed by one more delimiter exactly when the line ends with one:
    a delimiter at the end of the line ends the last part and opens no
    new one.  So the fields of a record, joined by the delimiter, come
    back as they are when the last field is not empty, and without the
    last field when it is empty. *)
Theorem split_join (line : string) (delim : ascii) :
  Forall (free_of delim) (split line delim)
  /\ (split line delim = [] <-> line = "")
  /\ line
     = String.concat (String delim "") (split line delim)
       ++ (if ends_with delim line then String delim "" else "")
  /\ (forall (fs : list string) (last : string),
        Forall (free_of delim) fs -> free_of delim last ->
        split (String.concat (String delim "") (fs ++ [last])) delim
        = (fs ++ (if String.eqb last "" then [] else [last]))%list).
Proof.
  split; [apply getlines_free|]. split; [|split].
  - split; [apply getlines_nil | now intros ->].
  - apply split_joined.
  - intros fs last Hfs Hlast. now apply getlines_concat.
Qed.

Lemma remove_char_length (a : ascii) (s : string) :
  (String.length (remove_char a s) <= String.length s)%nat.
Proof.
  induction s as [|c r IH]; simpl; [lia|].
  destruct (Ascii.eqb c a); simpl; lia.
Qed.

Lemma replace_char_length (a b : ascii) (s : string) :
  String.length (replace_char a b s) = String.length s.
Proof. induction s as [|c r IH]; simpl; [reflexivity | now rewrite IH]. Qed.

(** X6.  What [encode_field] returns holds no delimiter, no newline and
    no carriage return, and is not longer than the title; a title
    without these characters is returned as it is; encoding twice is
    encoding once. *)
Theorem encode_field_spec (s : string) :
  (free_of SEP (encode_field s) /\ free_of LF (encode_field s)
   /\ free_of CR (encode_field s))
  /\ (String.length (encode_field s) <= String.length s)%nat
  /\ (free_of SEP s -> free_of LF s -> free_of CR s -> encode_field s = s)
  /\ encode_field (encode_field s) = encode_field s.
Proof.
  split; [apply encode_field_free|]. split; [|split].
  - unfold encode_field.
    pose proof (remove_char_length CR (remove_char LF (replace_char SEP "/" s))).
    pose proof (remove_char_length LF (replace_char SEP "/" s)).
    pose proof (replace_char_length SEP "/" s). lia.
  - apply encode_field_id.
  - apply encode_field_idem.
Qed.

Lemma parse_int_in_int (s : string) : in_int (parse_int s) = true.
Proof.
  unfold parse_int. destruct (stoi s) as [n|] eqn:E; [|reflexivity].
  exact (stoi_in_int s n E).
Qed.

(** X7.  [parse_int] always returns an [int], and it reads the decimal
    writing of every [int] back as that number: an id as [add] prints
    it is the id that [done] and [rm] take. *)
Theorem parse_int_reads_ids (s : string) (n : Z) :
  in_int (parse_int s) = true
  /\ (in_int n = true -> parse_int (string_of_int n) = n).
Proof.
  split; [apply parse_int_in_int|]. intros Hn. unfold parse_int.
  now rewrite (stoi_string_of_int n Hn).
Qed.

(** ** [load_tasks] and [save_tasks] *)

Lemma decode_title_free (l : string) (t : Task) :
  free_of LF l -> decode l = Some t ->
  free_of SEP (title t) /\ free_of LF (title t).
Proof.
  intros Hl. unfold decode.
  destruct (stoi (part 0 (split l SEP))); [|discriminate].
  intros [= <-]. cbn [title]. split.
  - apply free_of_nth. apply getlines_free.
  - apply free_of_nth. now apply getlines_keep_free.
Qed.

Lemma decode_all_titles_free (lines : list string) (v : list Task) :
  Forall (free_of LF) lines -> decode_all lines = Some v ->
  Forall (fun t => free_of SEP (title t) /\ free_of LF (title t)) v.
Proof.
  intros H. revert v. induction H as [|l lines Hl _ IH]; intros v; simpl.
  - intros [= <-]. constructor.
  - destruct (decode l) as [t|] eqn:E; [|discriminate].
    destruct (decode_all lines) as [w|]; [|discriminate].
    intros [= <-]. constructor; [exact (decode_title_free l t Hl E) | now apply IH].
Qed.

(** X8.  Whatever the file holds, every task that [load_tasks] returns
    has an id that is an [int], a priority that is neither the
    delimiter nor a newline, a due date and a title without delimiter
    and newline, and a due date that is not the mark ["-"]. *)
Theorem loaded_tasks_well_formed (file : option string) (v : list Task) :
  load_tasks file = Some v ->
  Forall (fun t => fields_ok t
                   /\ free_of SEP (title t) /\ free_of LF (title t)) v.
Proof.
  intros Hload. apply Forall_forall. intros t Ht.
  pose proof (load_tasks_fields_ok file v Hload) as Hok.
  rewrite Forall_forall in Hok. split; [now apply Hok|].
  destruct file as [content|]; [|injection Hload as <-; contradiction].
  rewrite load_tasks_decode in Hload.
  assert (Hfree : Forall (fun t => free_of SEP (title t) /\ free_of LF (title t)) v).
  { apply (decode_all_titles_free (filter kept (getlines LF content)) v);
      [|exact Hload].
    apply Forall_filter, getlines_free. }
  rewrite Forall_forall in Hfree. now apply Hfree.
Qed.

Lemma loaded_tasks_well_formed_witness :
  load_tasks (Some file_six_fields) = Some [task_untitled]
  /\ Forall (fun t => fields_ok t
                      /\ free_of SEP (title t) /\ free_of LF (title t))
       [task_untitled].
Proof.
  assert (H : load_tasks (Some file_six_fields) = Some [task_untitled])
    by (vm_compute; reflexivity).
  exact (conj H (loaded_tasks_well_formed _ _ H)).
Defined.

Lemma stored_idem (t : Task) : stored (stored t) = stored t.
Proof. unfold stored. cbn [id done priority due title]. now rewrite encode_field_idem. Qed.

Lemma titled_stored (t : Task) : titled (stored t) = titled t.
Proof. unfold titled, stored. cbn [title]. now rewrite encode_field_idem. Qed.

Lemma map_stored_idem (v : list Task) : map stored (map stored v) = map stored v.
Proof.
  induction v as [|t v IH]; [reflexivity|]. cbn [map]. now rewrite stored_idem, IH.
Qed.

Lemma filter_titled_stored (v : list Task) :
  filter titled (map stored (filter titled v)) = map stored (filter titled v).
Proof.
  induction v as [|t v IH]; [reflexivity|]. cbn [filter].
  destruct (titled t) eqn:E; [|exact IH].
  cbn [map filter]. now rewrite titled_stored, E, IH.
Qed.

Lemma Forall_map_stored (v : list Task) :
  Forall fields_ok v -> Forall fields_ok (map stored v).
Proof.
  induction 1 as [|t v Ht _ IH]; cbn [map]; constructor; auto.
Qed.

(** X9.  A file that [save_tasks] wrote from what [load_tasks] read is
    read without an exception: the tasks whose title is written as a
    non-empty field come back in order, with the title as written, and
    the others are lost.  What is read then is stable: written and read
    once more, it is the same vector. *)
Theorem rewritten_file_loads (file : option string) (v : list Task) :
  load_tasks file = Some v ->
  load_tasks (rewrite_file file) = Some (map stored (filter titled v))
  /\ load_tasks (rewrite_file (rewrite_file file))
     = Some (map stored (filter titled v)).
Proof.
  intros Hload. pose proof (load_tasks_fields_ok file v Hload) as Hok.
  assert (H1 : load_tasks (rewrite_file file) = Some (map stored (filter titled v))).
  { unfold rewrite_file. rewrite Hload. cbn [option_map]. now apply load_save. }
  split; [exact H1|].
  unfold rewrite_file at 1. rewrite H1. cbn [option_map].
  rewrite load_save.
  - now rewrite filter_titled_stored, map_stored_idem.
  - apply Forall_map_stored. now apply Forall_filter.
Qed.

Lemma rewritten_file_loads_witness :
  load_tasks (Some file_six_fields) = Some [task_untitled]
  /\ load_tasks (rewrite_file (Some file_six_fields))
     = Some (map stored (filter titled [task_untitled])).
Proof.
  assert (H : load_tasks (Some file_six_fields) = Some [task_untitled])
    by (vm_compute; reflexivity).
  exact (conj H (proj1 (rewritten_file_loads _ _ H))).
Defined.

(** ** [next_id]: fresh ids *)

Lemma wrap_int_in_int (n : Z) : in_int (wrap_int n) = true.
Proof.
  unfold in_int, wrap_int, INT_MIN, INT_MAX.
  pose proof (Z.mod_pos_bound (n - -2147483648) (2 ^ 32) eq_refl) as H.
  change (2 ^ 32) with 4294967296 in *.
  apply andb_true_intro. split; apply Z.leb_le; lia.
Qed.

Lemma max_loop_below (v : list Task) :
  Forall (fun t => id t < INT_MAX) v -> 0 <= max_loop 0 v < INT_MAX.
Proof.
  intros Hv. split; [apply max_loop_ge|].
  assert (max_loop 0 v <= INT_MAX - 1); [|lia].
  apply max_loop_bound; [unfold INT_MAX; lia|].
  eapply Forall_impl; [|exact Hv]. intros t Ht. simpl in Ht. lia.
Qed.

(** X10.  When no stored id is [INT_MAX], the id that [next_id] gives
    is at least 1 and larger than every id of the collection; so a
    collection without two equal ids has none after [add] appended its
    task. *)
Theorem next_id_fresh (v : list Task) :
  Forall (fun t => id t < INT_MAX) v ->
  1 <= next_id v
  /\ Forall (fun t => id t < next_id v) v
  /\ (NoDup (map id v) ->
      forall d p u ti,
        NoDup (map id (v ++ [mkTask (next_id v) d p u ti]))).
Proof.
  intros Hv. pose proof (max_loop_below v Hv) as Hm.
  assert (Hnext : next_id v = max_loop 0 v + 1).
  { unfold next_id. apply wrap_int_small. unfold in_int, INT_MIN, INT_MAX in *.
    apply andb_true_intro. split; apply Z.leb_le; lia. }
  assert (Hall : Forall (fun t => id t < next_id v) v).
  { apply Forall_forall. intros t Ht. rewrite Hnext.
    assert (id t <= max_loop 0 v); [|lia].
    apply max_loop_reaches. now apply in_map. }
  split; [lia|]. split; [exact Hall|].
  intros Hnd d p u ti. rewrite map_app. cbn [map id].
  apply (Permutation_NoDup (Permutation_cons_append (map id v) (next_id v))).
  constructor; [|exact Hnd].
  intros Hin. apply in_map_iff in Hin. destruct Hin as [t [Heq Ht]].
  rewrite Forall_forall in Hall. specialize (Hall t Ht). simpl in Hall. lia.
Qed.

Lemma next_id_fresh_witness :
  Forall (fun t => id t < INT_MAX) tasks_2_7_4
  /\ 1 <= next_id tasks_2_7_4
  /\ Forall (fun t => id t < next_id tasks_2_7_4) tasks_2_7_4.
Proof.
  assert (H : Forall (fun t => id t < INT_MAX) tasks_2_7_4)
    by (repeat constructor).
  exact (conj H (conj (proj1 (next_id_fresh tasks_2_7_4 H))
                   (proj1 (proj2 (next_id_fresh tasks_2_7_4 H))))).
Defined.

(** X11.  Ids are not kept for good: once the tasks with the largest id
    [m] are removed, [next_id] gives an id that is at most [m], so the
    next [add] can give the id of a removed task again. *)
Theorem next_id_after_removal (v : list Task) (m : Z) :
  In m (map id v) -> Forall (fun t => id t <= m) v -> 1 <= m <= INT_MAX ->
  1 <= next_id (remove_if (fun t => id t =? m) v) <= m.
Proof.
  intros _ Hall Hm. set (w := remove_if (fun t => id t =? m) v).
  assert (Hw : Forall (fun t => id t <= m - 1) w).
  { apply Forall_forall. intros t Ht. unfold w, remove_if in Ht.
    apply filter_In in Ht. destruct Ht as [Hin Hne].
    rewrite Forall_forall in Hall. specialize (Hall t Hin). simpl in Hall.
    apply negb_true_iff, Z.eqb_neq in Hne. lia. }
  assert (Hmax : 0 <= max_loop 0 w <= m - 1).
  { split; [apply max_loop_ge | apply max_loop_bound; [lia | exact Hw]]. }
  unfold next_id. rewrite wrap_int_small; [lia|].
  unfold in_int, INT_MIN, INT_MAX in *.
  apply andb_true_intro. split; apply Z.leb_le; lia.
Qed.

Lemma next_id_after_removal_witness :
  In 7 (map id tasks_2_7_4) /\ Forall (fun t => id t <= 7) tasks_2_7_4
  /\ 1 <= 7 <= INT_MAX
  /\ 1 <= next_id (remove_if (fun t => id t =? 7) tasks_2_7_4) <= 7.
Proof.
  assert (H1 : In 7 (map id tasks_2_7_4)) by (simpl; right; left; reflexivity).
  assert (H2 : Forall (fun t => id t <= 7) tasks_2_7_4)
    by (repeat constructor; simpl; lia).
  assert (H3 : 1 <= 7 <= INT_MAX) by (unfold INT_MAX; lia).
  exact (conj H1 (conj H2 (conj H3 (next_id_after_removal _ 7 H1 H2 H3)))).
Defined.

(** ** [rm] and [done] *)

Lemma filter_length_all {A : Type} (f : A -> bool) (l : list A) :
  List.length (filter f l) = List.length l -> filter f l = l.
Proof.
  induction l as [|a l IH]; [reflexivity|]. simpl.
  pose proof (filter_length_le f l) as Hle.
  destruct (f a); simpl; intros H; [f_equal; apply IH; lia | lia].
Qed.

Lemma remove_if_none (n : Z) (v : list Task) :
  ~ In n (map id v) -> remove_if (fun t => id t =? n) v = v.
Proof.
  intros Hn. unfold remove_if. induction v as [|t v IH]; [reflexivity|].
  simpl in *. destruct (Z.eqb_spec (id t) n) as [E | _]; [tauto|].
  simpl. f_equal. apply IH. tauto.
Qed.

Lemma remove_if_some (n : Z) (v : list Task) :
  In n (map id v) ->
  Nat.eqb (List.length (remove_if (fun t => id t =? n) v)) (List.length v)
  = false.
Proof.
  intros Hin. apply Nat.eqb_neq. intros Hlen.
  apply filter_length_all in Hlen. apply in_map_iff in Hin.
  destruct Hin as [t [Hid Ht]]. unfold remove_if in Hlen.
  rewrite <- Hlen in Ht. apply filter_In in Ht. destruct Ht as [_ Hne].
  apply negb_true_iff, Z.eqb_neq in Hne. contradiction.
Qed.

Lemma remove_if_gone (n : Z) (v : list Task) :
  ~ In n (map id (remove_if (fun t => id t =? n) v)).
Proof.
  intros Hin. apply in_map_iff in Hin. destruct Hin as [t [Hid Ht]].
  apply filter_In in Ht. destruct Ht as [_ Hne].
  apply negb_true_iff, Z.eqb_neq in Hne. contradiction.
Qed.

Lemma cmd_rm_run (a : string) (rest : list string) (file : option string)
    (v : list Task) (n : Z) :
  load_tasks file = Some v -> stoi a = Some n -> 0 <= n ->
  cmd_rm (a :: rest) file
  = if Nat.eqb (List.length (remove_if (fun t => id t =? n) v)) (List.length v)
    then fail file (line "Task not found.")
    else mkOutcome (Exit 0)
           (Some (save_tasks (remove_if (fun t => id t =? n) v)))
           (line ("Removed #" ++ string_of_int n ++ ".")) "".
Proof.
  intros Hload Ha Hn. unfold cmd_rm, parse_int. rewrite Ha.
  destruct (Z.ltb_spec n 0); [lia|]. now rewrite Hload.
Qed.

(** X12.  On a store that loads, [rm] with an argument that reads as
    [n], not negative: when no task has the id [n] it fails with status
    1; otherwise it exits with 0 and writes the tasks whose id is not
    [n], in their order, so that every task with the id [n] is removed,
    not only the first. *)
Theorem rm_spec (prog a : string) (rest : list string) (file : option string)
    (v : list Task) (n : Z) :
  load_tasks file = Some v -> stoi a = Some n -> 0 <= n ->
  (~ In n (map id v) ->
   main (prog :: "rm" :: a :: rest) file = fail file (line "Task not found."))
  /\ (In n (map id v) ->
      main (prog :: "rm" :: a :: rest) file
      = mkOutcome (Exit 0)
          (Some (save_tasks (filter (fun t => negb (id t =? n)) v)))
          (line ("Removed #" ++ string_of_int n ++ ".")) ""
      /\ ~ In n (map id (filter (fun t => negb (id t =? n)) v))).
Proof.
  intros Hload Ha Hn.
  assert (Hmain : main (prog :: "rm" :: a :: rest) file = cmd_rm (a :: rest) file)
    by reflexivity.
  rewrite Hmain, (cmd_rm_run a rest file v n Hload Ha Hn). split.
  - intros Hnot. now rewrite (remove_if_none n v Hnot), Nat.eqb_refl.
  - intros Hin. rewrite (remove_if_some n v Hin).
    split; [reflexivity | apply remove_if_gone].
Qed.

Lemma rm_spec_witness :
  load_tasks (Some file_six_fields) = Some [task_untitled]
  /\ stoi "1" = Some 1 /\ 0 <= 1
  /\ main ["tt"; "rm"; "1"] (Some file_six_fields)
     = mkOutcome (Exit 0)
         (Some (save_tasks (filter (fun t => negb (id t =? 1)) [task_untitled])))
         (line ("Removed #" ++ string_of_int 1 ++ ".")) "".
Proof.
  assert (H1 : load_tasks (Some file_six_fields) = Some [task_untitled])
    by (vm_compute; reflexivity).
  assert (H2 : stoi "1" = Some 1) by reflexivity.
  assert (H3 : 0 <= 1) by lia.
  assert (H4 : In 1 (map id [task_untitled])) by (left; reflexivity).
  exact (conj H1 (conj H2 (conj H3
    (proj1 (proj2 (rm_spec "tt" "1" [] _ _ 1 H1 H2 H3) H4))))).
Defined.

Lemma ids_stored_filter (f : Task -> bool) (n : Z) (v : list Task) :
  ~ In n (map id v) -> ~ In n (map id (map stored (filter f v))).
Proof.
  intros Hn Hin. apply Hn. apply in_map_iff in Hin.
  destruct Hin as [t [Hid Ht]]. apply in_map_iff in Ht.
  destruct Ht as [u [Hu Hin]]. subst t. apply filter_In in Hin.
  apply in_map_iff. exists u. split; [exact Hid | tauto].
Qed.

Lemma mark_done_none (n : Z) (v : list Task) :
  ~ In n (map id v) -> mark_done n v = None.
Proof.
  induction v as [|t v IH]; [reflexivity|]. simpl. intros Hn.
  destruct (Z.eqb_spec (id t) n) as [E | _]; [tauto|].
  rewrite IH; [reflexivity | tauto].
Qed.

(** X13.  After [rm] has removed the id [n] from a store, the id is
    gone on the next run: [rm] and [done] with the same argument both
    fail with status 1 and leave the file that the first [rm] wrote. *)
Theorem rm_then_not_found (prog a cmd : string) (file : option string)
    (v : list Task) (n : Z) :
  load_tasks file = Some v -> stoi a = Some n -> 0 <= n ->
  In n (map id v) -> cmd = "rm" \/ cmd = "done" ->
  main [prog; cmd; a] (file_after (main [prog; "rm"; a] file))
  = fail (file_after (main [prog; "rm"; a] file)) (line "Task not found.").
Proof.
  intros Hload Ha Hn Hin Hcmd.
  assert (Hmain : main [prog; "rm"; a] file = cmd_rm [a] file) by reflexivity.
  rewrite Hmain, (cmd_rm_run a [] file v n Hload Ha Hn),
    (remove_if_some n v Hin). cbn [file_after].
  set (w := remove_if (fun t => id t =? n) v).
  assert (Hw : load_tasks (Some (save_tasks w))
               = Some (map stored (filter titled w))).
  { apply load_save. unfold w, remove_if. apply Forall_filter.
    exact (load_tasks_fields_ok file v Hload). }
  assert (Hgone : ~ In n (map id (map stored (filter titled w)))).
  { apply ids_stored_filter. apply remove_if_gone. }
  destruct Hcmd as [-> | ->].
  - change (main [prog; "rm"; a] (Some (save_tasks w)))
      with (cmd_rm [a] (Some (save_tasks w))).
    rewrite (cmd_rm_run a [] _ _ n Hw Ha Hn).
    now rewrite (remove_if_none n _ Hgone), Nat.eqb_refl.
  - change (main [prog; "done"; a] (Some (save_tasks w)))
      with (cmd_done [a] (Some (save_tasks w))).
    unfold cmd_done, parse_int. rewrite Ha.
    destruct (Z.ltb_spec n 0); [lia|].
    now rewrite Hw, (mark_done_none n _ Hgone).
Qed.

Lemma rm_then_not_found_witness :
  load_tasks (Some file_six_fields) = Some [task_untitled]
  /\ main ["tt"; "done"; "1"]
       (file_after (main ["tt"; "rm"; "1"] (Some file_six_fields)))
     = fail (file_after (main ["tt"; "rm"; "1"] (Some file_six_fields)))
         (line "Task not found.").
Proof.
  assert (H1 : load_tasks (Some file_six_fields) = Some [task_untitled])
    by (vm_compute; reflexivity).
  assert (H4 : In 1 (map id [task_untitled])) by (left; reflexivity).
  assert (H3 : 0 <= 1) by lia.
  exact (conj H1 (rm_then_not_found "tt" "1" "done" _ _ 1 H1 eq_refl H3 H4
                    (or_intror eq_refl))).
Defined.




(** ** [clear] *)

Lemma clear_args_ok (args : list string) (b : bool) :
  forallb clear_arg_ok args = true ->
  clear_args args b = inr (b || existsb (String.eqb "--all") args).
Proof.
  revert b. induction args as [|a args IH]; intros b;
    cbn [clear_args forallb existsb].
  - intros _. now rewrite orb_false_r.
  - intros H. apply andb_prop in H. destruct H as [Ha Hargs].
    unfold clear_arg_ok in Ha. rewrite (String.eqb_sym "--all" a).
    destruct (String.eqb a "--all").
    + rewrite (IH true Hargs). now rewrite orb_true_r.
    + cbn [orb] in *. rewrite Ha. now rewrite (IH b Hargs).
Qed.

Lemma clear_args_bad (args : list string) (b : bool) :
  forallb clear_arg_ok args = false ->
  exists a, In a args /\ clear_arg_ok a = false
            /\ clear_args args b = inl (line ("Unknown arg: " ++ a)).
Proof.
  revert b. induction args as [|a args IH]; intros b; simpl; [discriminate|].
  unfold clear_arg_ok at 1.
  destruct (String.eqb a "--all") eqn:E1.
  - simpl. intros H. destruct (IH true H) as [x [Hin [Hx Hc]]].
    exists x. auto.
  - destruct (String.eqb a "--done") eqn:E2.
    + simpl. intros H. destruct (IH b H) as [x [Hin [Hx Hc]]].
      exists x. auto.
    + intros _. exists a. unfold clear_arg_ok. rewrite E1, E2. auto.
Qed.

Lemma filter_pending_done (v : list Task) :
  filter (matches Done) (map stored (filter titled (filter pending v))) = [].
Proof.
  induction v as [|t v IH]; [reflexivity|]. cbn [filter]. unfold pending at 1.
  destruct (done t) eqn:Ed; cbn [negb]; [exact IH|].
  cbn [filter]. destruct (titled t); [|exact IH].
  cbn [map filter matches]. change (done (stored t)) with (done t).
  now rewrite Ed.
Qed.

(** X15.  [clear] takes only [--all] and [--done]: with another
    argument it fails with status 1 before it reads the file.
    Otherwise, on a store that loads, it exits with 0 and writes no
    task when [--all] is among the arguments, and the incomplete tasks
    in their order when it is not; either way [list --done] then prints
    nothing. *)
Theorem clear_spec (prog sort_key : string) (args : list string)
    (file : option string) :
  (forallb clear_arg_ok args = false ->
   exists a, In a args /\ clear_arg_ok a = false
             /\ main (prog :: "clear" :: args) file
                = fail file (line ("Unknown arg: " ++ a)))
  /\ (forallb clear_arg_ok args = true ->
      forall v, load_tasks file = Some v ->
      exit_status (main (prog :: "clear" :: args) file) = Exit 0
      /\ file_after (main (prog :: "clear" :: args) file)
         = Some (save_tasks (if existsb (String.eqb "--all") args then []
                             else filter pending v))
      /\ list_cmd Done sort_key
           (file_after (main (prog :: "clear" :: args) file)) = Some "").
Proof.
  assert (Hmain : main (prog :: "clear" :: args) file = cmd_clear args file)
    by reflexivity.
  rewrite Hmain. unfold cmd_clear. split.
  - intros Hbad. destruct (clear_args_bad args false Hbad) as [a [Hin [Ha Hc]]].
    exists a. rewrite Hc. auto.
  - intros Hok v Hload. rewrite (clear_args_ok args false Hok), Hload.
    cbn [orb exit_status file_after]. split; [reflexivity|].
    split; [reflexivity|].
    pose proof (load_tasks_fields_ok file v Hload) as Hv.
    unfold list_cmd. destruct (existsb (String.eqb "--all") args).
    + reflexivity.
    + change (remove_if done v) with (filter pending v).
      rewrite (load_save (filter pending v)) by now apply Forall_filter.
      rewrite list_loop_rows.
      rewrite (stable_sort_filter (spec_compare sort_key) _ _ _
                 (order_cmp_spec sort_key) (task_less_spec sort_key)).
      now rewrite filter_pending_done.
Qed.

Lemma clear_spec_witness :
  forallb clear_arg_ok ["--done"] = true
  /\ load_tasks (Some file_six_fields) = Some [task_untitled]
  /\ list_cmd Done "id"
       (file_after (main ["tt"; "clear"; "--done"] (Some file_six_fields)))
     = Some "".
Proof.
  assert (H1 : forallb clear_arg_ok ["--done"] = true) by reflexivity.
  assert (H2 : load_tasks (Some file_six_fields) = Some [task_untitled])
    by (vm_compute; reflexivity).
  exact (conj H1 (conj H2
    (proj2 (proj2 (proj2 (clear_spec "tt" "id" ["--done"] _) H1 _ H2))))).
Defined.

(** ** [list]: the arguments *)

Lemma list_args_ok (args : list string) (f : ListFilter) (k : string) :
  forallb list_arg_ok args = true ->
  exists f' k', list_args args f k = inr (f', k').
Proof.
  revert f k. induction args as [|a args IH]; intros f k; simpl; [eauto|].
  intros H. apply andb_prop in H. destruct H as [Ha Hargs].
  unfold list_arg_ok in Ha.
  destruct (String.eqb a "--all"); [now apply IH|].
  destruct (String.eqb a "--pending"); [now apply IH|].
  destruct (String.eqb a "--done"); [now apply IH|].
  simpl in Ha. rewrite Ha. now apply IH.
Qed.

Lemma list_args_bad (args : list string) (f : ListFilter) (k : string) :
  forallb list_arg_ok args = false ->
  exists a, In a args /\ list_arg_ok a = false
            /\ list_args args f k = inl (line ("Unknown arg: " ++ a)).
Proof.
  revert f k. induction args as [|a args IH]; intros f k; simpl; [discriminate|].
  unfold list_arg_ok at 1.
  destruct (String.eqb a "--all") eqn:E1.
  { simpl. intros H. destruct (IH All k H) as [x [Hin [Hx Hc]]]. exists x. auto. }
  destruct (String.eqb a "--pending") eqn:E2.
  { simpl. intros H. destruct (IH Pending k H) as [x [Hin [Hx Hc]]]. exists x. auto. }
  destruct (String.eqb a "--done") eqn:E3.
  { simpl. intros H. destruct (IH Done k H) as [x [Hin [Hx Hc]]]. exists x. auto. }
  destruct (prefix "--sort=" a) eqn:E4.
  { simpl. intros H.
    destruct (IH f (substring 7 (String.length a - 7) a) H) as [x [Hin [Hx Hc]]].
    exists x. auto. }
  intros _. exists a. unfold list_arg_ok. rewrite E1, E2, E3, E4. auto.
Qed.

(** X16.  [list] takes [--all], [--pending], [--done] and the
    arguments that start with [--sort=]: with another argument it
    fails with status 1, naming that argument, before it reads the
    file.  With none it never exits with status 1 and leaves the file
    as it is; on a file that loads it exits with 0 and writes nothing
    to the error stream, and on a file that does not load the message
    on the error stream is the one of the runtime. *)
Theorem list_arguments (prog : string) (args : list string)
    (file : option string) :
  (forallb list_arg_ok args = false ->
   exists a, In a args /\ list_arg_ok a = false
             /\ main (prog :: "list" :: args) file
                = fail file (line ("Unknown arg: " ++ a)))
  /\ (forallb list_arg_ok args = true ->
      exit_status (main (prog :: "list" :: args) file) <> Exit 1
      /\ file_after (main (prog :: "list" :: args) file) = file
      /\ (forall v, load_tasks file = Some v ->
          exit_status (main (prog :: "list" :: args) file) = Exit 0
          /\ stderr (main (prog :: "list" :: args) file) = "")
      /\ (load_tasks file = None ->
          main (prog :: "list" :: args) file = terminate file)).
Proof.
  assert (Hmain : main (prog :: "list" :: args) file = cmd_list args file)
    by reflexivity.
  rewrite Hmain. unfold cmd_list. split.
  - intros Hbad. destruct (list_args_bad args All "due" Hbad) as [a [Hin [Ha Hc]]].
    exists a. rewrite Hc. auto.
  - intros Hok. destruct (list_args_ok args All "due" Hok) as [f [k ->]].
    unfold list_cmd. destruct (load_tasks file) as [w|].
    + cbn [exit_status file_after stderr]. split; [discriminate|].
      split; [reflexivity|]. split; [now intros v _ | discriminate].
    + cbn [terminate exit_status file_after]. split; [discriminate|].
      split; [reflexivity|]. split; [discriminate | reflexivity].
Qed.

Lemma list_arguments_witness :
  forallb list_arg_ok ["--pending"; "--sort=id"] = true
  /\ load_tasks (Some file_bad_id) = None
  /\ main ["tt"; "list"; "--pending"; "--sort=id"] (Some file_bad_id)
     = terminate (Some file_bad_id).
Proof.
  assert (H : forallb list_arg_ok ["--pending"; "--sort=id"] = true)
    by reflexivity.
  assert (Hl : load_tasks (Some file_bad_id) = None) by (vm_compute; reflexivity).
  exact (conj H (conj Hl
    (proj2 (proj2 (proj2 (proj2 (list_arguments "tt" _ (Some file_bad_id)) H)))
       Hl))).
Defined.

(** ** [main]: the status and the file *)

(** ** [main]: the status and the file *)

Lemma cmd_add_written (args : list string) (file : option string) :
  file_after (cmd_add args file) <> file ->
  exit_status (cmd_add args file) = Exit 0.
Proof.
  unfold cmd_add. destruct args as [|a args]; [written_or_not|].
  destruct (add_loop (a :: args) "M" None []) as [msg | [[pr du] parts]];
    [written_or_not|].
  destruct parts as [|p parts]; [written_or_not|].
  destruct (load_tasks file); written_or_not.
Qed.

Lemma cmd_list_reads (args : list string) (file : option string) :
  file_after (cmd_list args file) = file.
Proof.
  unfold cmd_list.
  destruct (list_args args All "due") as [msg | [f k]]; [reflexivity|].
  destruct (list_cmd f k file); reflexivity.
Qed.

Lemma cmd_done_written (args : list string) (file : option string) :
  file_after (cmd_done args file) <> file ->
  exit_status (cmd_done args file) = Exit 0.
Proof.
  unfold cmd_done. destruct args as [|a args]; [written_or_not|].
  destruct (parse_int a <? 0); [written_or_not|].
  destruct (load_tasks file) as [v|]; [|written_or_not].
  destruct (mark_done (parse_int a) v); written_or_not.
Qed.

Lemma cmd_rm_written (args : list string) (file : option string) :
  file_after (cmd_rm args file) <> file ->
  exit_status (cmd_rm args file) = Exit 0.
Proof.
  unfold cmd_rm. destruct args as [|a args]; [written_or_not|].
  destruct (parse_int a <? 0); [written_or_not|].
  destruct (load_tasks file) as [v|]; [|written_or_not].
  destruct (Nat.eqb _ _); written_or_not.
Qed.

Lemma cmd_clear_written (args : list string) (file : option string) :
  file_after (cmd_clear args file) <> file ->
  exit_status (cmd_clear args file) = Exit 0.
Proof.
  unfold cmd_clear. destruct (clear_args args false); [written_or_not|].
  destruct (load_tasks file); written_or_not.
Qed.

(** X17.  The file is written only by [add], [done], [rm] and [clear],
    and only when they exit with status 0: whenever the file after a
    run is not the file before it, the command is one of the four and
    the status is 0.  [list], [help], a run without a command and an
    unknown command never change the file. *)
Theorem file_written_only_on_success (argv : list string)
    (file : option string) :
  file_after (main argv file) <> file ->
  exit_status (main argv file) = Exit 0
  /\ exists prog cmd args,
       argv = prog :: cmd :: args
       /\ (cmd = "add" \/ cmd = "done" \/ cmd = "rm" \/ cmd = "clear").
Proof.
  unfold main.
  destruct argv as [|prog [|cmd args]];
    [intros H; now contradiction H | intros H; now contradiction H |].
  destruct (_ || _); [intros H; now contradiction H|].
  destruct (String.eqb_spec cmd "add") as [-> | _].
  { intros H. split; [now apply cmd_add_written | eauto 10]. }
  destruct (String.eqb_spec cmd "list") as [-> | _].
  { intros H. contradiction H. apply cmd_list_reads. }
  destruct (String.eqb_spec cmd "done") as [-> | _].
  { intros H. split; [now apply cmd_done_written | eauto 10]. }
  destruct (String.eqb_spec cmd "rm") as [-> | _].
  { intros H. split; [now apply cmd_rm_written | eauto 10]. }
  destruct (String.eqb_spec cmd "clear") as [-> | _].
  { intros H. split; [now apply cmd_clear_written | eauto 10]. }
  intros H. now contradiction H.
Qed.

Lemma file_written_only_on_success_witness :
  file_after (main ["tt"; "clear"; "--all"] (Some file1)) <> Some file1
  /\ exit_status (main ["tt"; "clear"; "--all"] (Some file1)) = Exit 0.
Proof.
  assert (H : file_after (main ["tt"; "clear"; "--all"] (Some file1))
              <> Some file1) by (vm_compute; discriminate).
  exact (conj H (proj1 (file_written_only_on_success _ _ H))).
Defined.

(** X18.  A run ends with status 0 or 1, or with the exception of
    [load_tasks], which happens only on a file that [load_tasks] cannot
    read: on an absent file and on a file that loads, every command
    returns 0 or 1. *)
Theorem exit_status_cases (argv : list string) (file : option string) :
  exit_status (main argv file) = Exit 0
  \/ exit_status (main argv file) = Exit 1
  \/ (exit_status (main argv file) = Uncaught /\ load_tasks file = None).
Proof.
  unfold main.
  destruct argv as [|prog [|cmd args]]; [status_case | status_case |].
  destruct (_ || _); [status_case|].
  destruct (String.eqb cmd "add").
  { unfold cmd_add. destruct args as [|a args]; [status_case|].
    destruct (add_loop _ _ _ _) as [msg | [[pr du] parts]]; [status_case|].
    destruct parts; [status_case|].
    destruct (load_tasks file) eqn:E; status_case. }
  destruct (String.eqb cmd "list").
  { unfold cmd_list, list_cmd.
    destruct (list_args _ _ _) as [msg | [f k]]; [status_case|].
    destruct (load_tasks file) eqn:E; status_case. }
  destruct (String.eqb cmd "done").
  { unfold cmd_done. destruct args as [|a args]; [status_case|].
    destruct (_ <? _); [status_case|].
    destruct (load_tasks file) as [v|] eqn:E; [|status_case].
    destruct (mark_done _ v); status_case. }
  destruct (String.eqb cmd "rm").
  { unfold cmd_rm. destruct args as [|a args]; [status_case|].
    destruct (_ <? _); [status_case|].
    destruct (load_tasks file) as [v|] eqn:E; [|status_case].
    destruct (Nat.eqb _ _); status_case. }
  destruct (String.eqb cmd "clear").
  { unfold cmd_clear. destruct (clear_args _ _); [status_case|].
    destruct (load_tasks file) eqn:E; status_case. }
  status_case.
Qed.

(** ** [is_valid_date] *)

Lemma valid_date_shape (d : string) : is_valid_date d = true -> date_shape d.
Proof.
  unfold is_valid_date.
  destruct d as [|y1 d]; [discriminate|]. destruct d as [|y2 d]; [discriminate|].
  destruct d as [|y3 d]; [discriminate|]. destruct d as [|y4 d]; [discriminate|].
  destruct d as [|s1 d]; [discriminate|]. destruct d as [|m1 d]; [discriminate|].
  destruct d as [|m2 d]; [discriminate|]. destruct d as [|s2 d]; [discriminate|].
  destruct d as [|d1 d]; [discriminate|]. destruct d as [|d2 d]; [discriminate|].
  destruct d as [|x d]; [|discriminate].
  cbn [String.length Nat.eqb negb orb char_at String.get].
  destruct (Ascii.eqb_spec s1 "-") as [-> | _]; [|discriminate].
  destruct (Ascii.eqb_spec s2 "-") as [-> | _]; [|discriminate].
  cbn [negb orb date_digits Nat.eqb].
  destruct (isdigit y1) eqn:E1; [|discriminate].
  destruct (isdigit y2) eqn:E2; [|discriminate].
  destruct (isdigit y3) eqn:E3; [|discriminate].
  destruct (isdigit y4) eqn:E4; [|discriminate].
  destruct (isdigit m1) eqn:E5; [|discriminate].
  destruct (isdigit m2) eqn:E6; [|discriminate].
  destruct (isdigit d1) eqn:E7; [|discriminate].
  destruct (isdigit d2) eqn:E8; [|discriminate].
  intros _. exists y1, y2, y3, y4, m1, m2, d1, d2. repeat split; assumption.
Qed.

Lemma date_shape_valid (d : string) : date_shape d -> is_valid_date d = true.
Proof.
  intros [y1 [y2 [y3 [y4 [m1 [m2 [d1 [d2 [-> H]]]]]]]]].
  destruct H as [E1 [E2 [E3 [E4 [E5 [E6 [E7 E8]]]]]]].
  unfold is_valid_date.
  cbn [String.length Nat.eqb negb orb char_at String.get Ascii.eqb Bool.eqb
       date_digits].
  now rewrite E1, E2, E3, E4, E5, E6, E7, E8.
Qed.

Lemma digit_or_minus_date (d : string) :
  date_shape d -> string_forall digit_or_minus d = true.
Proof.
  intros [y1 [y2 [y3 [y4 [m1 [m2 [d1 [d2 [-> H]]]]]]]]].
  destruct H as [E1 [E2 [E3 [E4 [E5 [E6 [E7 E8]]]]]]].
  cbn [string_forall]. unfold digit_or_minus.
  rewrite E1, E2, E3, E4, E5, E6, E7, E8. reflexivity.
Qed.

(** A valid date can be written: it holds no delimiter and no newline
    and is not the mark of an absent date. *)
Lemma valid_date_storable (d : string) :
  is_valid_date d = true -> free_of SEP d /\ free_of LF d /\ d <> "-".
Proof.
  intros H. apply valid_date_shape in H.
  pose proof (digit_or_minus_date d H) as Hc. repeat split.
  - now apply (string_forall_free digit_or_minus).
  - now apply (string_forall_free digit_or_minus).
  - destruct H as [y1 [y2 [y3 [y4 [m1 [m2 [d1 [d2 [-> _]]]]]]]]]. discriminate.
Qed.

(** X19.  [is_valid_date] accepts exactly the strings of ten characters
    with a dash in fifth and eighth place and a decimal digit in every
    other place; it checks no month and no day ([date_shape] asks
    nothing of the digits). *)
Theorem is_valid_date_spec (d : string) :
  is_valid_date d = true <-> date_shape d.
Proof. split; [apply valid_date_shape | apply date_shape_valid]. Qed.

(** ** [trim] *)

Lemma substring_0_0 (s : string) : substring 0 0 s = "".
Proof. destruct s; reflexivity. Qed.

Lemma substring_prefix (a b : string) :
  substring 0 (String.length a) (a ++ b) = a.
Proof.
  induction a as [|c a IH]; [apply substring_0_0|]. simpl. now rewrite IH.
Qed.

Lemma length_append (a b : string) :
  String.length (a ++ b) = (String.length a + String.length b)%nat.
Proof. induction a as [|c a IH]; simpl; [reflexivity | now rewrite IH]. Qed.

Lemma find_last_none (set s : string) :
  string_forall (fun c => mem_char c set) s = true ->
  find_last_not_of set s = None.
Proof.
  induction s as [|c s IH]; [reflexivity|]. simpl. intros H.
  apply andb_prop in H. destruct H as [Hc Hs]. now rewrite (IH Hs), Hc.
Qed.

Lemma find_last_none_blank (set s : string) :
  find_last_not_of set s = None ->
  string_forall (fun c => mem_char c set) s = true.
Proof.
  induction s as [|c s IH]; [reflexivity|]. simpl.
  destruct (find_last_not_of set s); [discriminate|].
  destruct (mem_char c set); [|discriminate]. intros _. now apply IH.
Qed.

Lemma find_last_at (set m r : string) (c : ascii) :
  mem_char c set = false ->
  string_forall (fun x => mem_char x set) r = true ->
  find_last_not_of set (m ++ String c r) = Some (String.length m).
Proof.
  intros Hc Hr. induction m as [|x m IH]; simpl.
  - now rewrite (find_last_none set r Hr), Hc.
  - now rewrite IH.
Qed.

Lemma find_last_split (set s : string) (e : nat) :
  find_last_not_of set s = Some e ->
  exists m c r,
    s = m ++ String c r /\ String.length m = e /\ mem_char c set = false
    /\ string_forall (fun x => mem_char x set) r = true.
Proof.
  revert e. induction s as [|x s IH]; intros e; simpl; [discriminate|].
  destruct (find_last_not_of set s) as [i|] eqn:E.
  - intros [= <-]. destruct (IH i eq_refl) as [m [c [r [-> [Hm [Hc Hr]]]]]].
    exists (String x m), c, r. simpl. rewrite Hm. auto.
  - destruct (mem_char x set) eqn:Hx; [discriminate|]. intros [= <-].
    exists "", x, s. repeat split; auto. now apply find_last_none_blank.
Qed.

(** [trim_end s] is [s] without the blanks at its end. *)
Lemma trim_end_split (s : string) :
  exists r,
    s = trim_end s ++ r /\ is_blank r = true
    /\ (trim_end s = ""
        \/ exists t c, trim_end s = t ++ String c "" /\ mem_char c blanks = false).
Proof.
  unfold trim_end. destruct (find_last_not_of blanks s) as [e|] eqn:E.
  - destruct (find_last_split blanks s e E) as [m [c [r [-> [Hm [Hc Hr]]]]]].
    exists r. subst e.
    assert (Hsub : substring 0 (S (String.length m)) (m ++ String c r)
                   = m ++ String c "").
    { replace (m ++ String c r) with ((m ++ String c "") ++ r)
        by (rewrite append_assoc; reflexivity).
      replace (S (String.length m)) with (String.length (m ++ String c ""))
        by (rewrite length_append; simpl; lia).
      apply substring_prefix. }
    rewrite Hsub. split; [now rewrite append_assoc|]. split; [exact Hr|].
    right. now exists m, c.
  - exists s. split; [reflexivity|]. split; [|now left].
    now apply find_last_none_blank.
Qed.

Lemma trim_blank_cons (c : ascii) (s : string) :
  mem_char c blanks = true -> trim (String c s) = trim s.
Proof.
  intros Hc. unfold trim. cbn [find_first_not_of find_last_not_of].
  rewrite Hc. destruct (find_first_not_of blanks s) as [b|]; [|reflexivity].
  cbn [option_map]. destruct (find_last_not_of blanks s) as [e|]; reflexivity.
Qed.

Lemma trim_nonblank_cons (c : ascii) (s : string) :
  mem_char c blanks = false -> trim (String c s) = String c (trim_end s).
Proof.
  intros Hc. unfold trim, trim_end. cbn [find_first_not_of find_last_not_of].
  rewrite Hc. destruct (find_last_not_of blanks s) as [e|].
  - replace (S e - 0 + 1)%nat with (S (S e)) by lia. reflexivity.
  - cbn [Nat.sub Nat.add substring]. now rewrite substring_0_0.
Qed.

Lemma trim_split (s : string) :
  exists l r,
    s = l ++ trim s ++ r /\ is_blank l = true /\ is_blank r = true
    /\ (trim s = ""
        \/ (exists c t, trim s = String c t /\ mem_char c blanks = false)
           /\ (exists t c, trim s = t ++ String c "" /\ mem_char c blanks = false)).
Proof.
  induction s as [|c s IH].
  - exists "", "". repeat split; auto.
  - destruct (mem_char c blanks) eqn:Hc.
    + rewrite (trim_blank_cons c s Hc).
      destruct IH as [l [r [Hs [Hl [Hr Hends]]]]].
      exists (String c l), r. split; [simpl; now rewrite <- Hs|].
      split; [|split; assumption].
      unfold is_blank in *. cbn [string_forall]. now rewrite Hc.
    + rewrite (trim_nonblank_cons c s Hc).
      destruct (trim_end_split s) as [r [Hs [Hr Hend]]].
      exists "", r. split; [simpl; now rewrite <- Hs|].
      split; [reflexivity|]. split; [exact Hr|]. right. split.
      * now exists c, (trim_end s).
      * destruct Hend as [-> | [t [c' [-> Hc']]]].
        -- now exists "", c.
        -- now exists (String c t), c'.
Qed.

Lemma substring_all (s : string) : substring 0 (String.length s) s = s.
Proof. induction s as [|c s IH]; simpl; [reflexivity | now rewrite IH]. Qed.

Lemma trim_end_id (t : string) (c : ascii) :
  mem_char c blanks = false -> trim_end (t ++ String c "") = t ++ String c "".
Proof.
  intros Hc. unfold trim_end. rewrite (find_last_at blanks t "" c Hc eq_refl).
  replace (S (String.length t)) with (String.length (t ++ String c ""))
    by (rewrite length_append; simpl; lia).
  apply substring_all.
Qed.

Lemma trim_id (s : string) :
  (exists c t, s = String c t /\ mem_char c blanks = false) ->
  (exists t c, s = t ++ String c "" /\ mem_char c blanks = false) ->
  trim s = s.
Proof.
  intros [c [t [-> Hc]]] [t' [c' [Ht Hc']]].
  rewrite (trim_nonblank_cons c t Hc). f_equal.
  destruct t' as [|x t'']; simpl in Ht.
  - injection Ht as _ ->. reflexivity.
  - injection Ht as _ ->. now apply trim_end_id.
Qed.

(** A trimmed string that is not empty starts with a character that is
    not blank. *)
Lemma trim_first (s : string) :
  trim s <> "" -> exists c t, trim s = String c t /\ mem_char c blanks = false.
Proof.
  intros Hne. destruct (trim_split s) as [l [r [_ [_ [_ [H | [H _]]]]]]];
    [contradiction | exact H].
Qed.

(** X20.  [trim] cuts blanks (space, tab, newline, carriage return)
    off both ends and nothing else: the string is blanks, then the
    trimmed string, then blanks; the trimmed string is empty or starts
    and ends with a character that is not blank; and trimming it again
    changes nothing. *)
Theorem trim_spec (s : string) :
  (exists l r,
     s = l ++ trim s ++ r /\ is_blank l = true /\ is_blank r = true
     /\ (trim s = ""
         \/ (exists c t, trim s = String c t /\ mem_char c blanks = false)
            /\ (exists t c, trim s = t ++ String c ""
                            /\ mem_char c blanks = false)))
  /\ trim (trim s) = trim s.
Proof.
  split; [apply trim_split|].
  destruct (trim_split s) as [l [r [_ [_ [_ [-> | [Hfirst Hlast]]]]]]];
    [reflexivity | now apply trim_id].
Qed.

(** ** [add]: the errors of the flags, and the task on the next run *)

(** X21.  When the loop of [add] meets [-d] followed by a value that
    [is_valid_date] refuses, the command fails with status 1; and when
    it meets an argument that starts with a dash and is not [-p] or
    [-d] followed by a value (another flag, or [-p] or [-d] in last
    place), it fails with status 1, naming the argument.  Either way
    the file is not read. *)
Theorem add_flag_errors (prog a : string) (args rest : list string)
    (pr : ascii) (du : option string) (parts : list string)
    (file : option string) :
  add_at args (a :: rest) pr du parts ->
  (forall val rest', a = "-d" -> rest = val :: rest' ->
     is_valid_date val = false ->
     main (prog :: "add" :: args) file
     = fail file (line "Invalid date, expected YYYY-MM-DD."))
  /\ (flag_like a = true -> rest = [] \/ (a <> "-p" /\ a <> "-d") ->
      main (prog :: "add" :: args) file
      = fail file (line ("Unknown flag: " ++ a))).
Proof.
  intros Hat.
  assert (Hne : args <> []).
  { apply add_at_length in Hat. destruct args; [simpl in Hat; lia | discriminate]. }
  assert (Hmain : main (prog :: "add" :: args) file = cmd_add args file)
    by reflexivity.
  rewrite Hmain, (cmd_add_loop args file Hne), (add_at_loop _ _ _ _ _ Hat).
  split.
  - intros val rest' -> -> Hbad. cbn [add_loop String.eqb Ascii.eqb Bool.eqb].
    now rewrite Hbad.
  - intros Hflag [-> | [Hp Hd]].
    + cbn [add_loop]. now rewrite Hflag.
    + cbn [add_loop]. destruct rest as [|val rest']; [now rewrite Hflag|].
      destruct (String.eqb_spec a "-p"); [contradiction|].
      destruct (String.eqb_spec a "-d"); [contradiction|].
      now rewrite Hflag.
Qed.

Lemma add_flag_errors_witness :
  add_at ["x"; "-d"] ["-d"] "M" None ["x"]
  /\ main ["tt"; "add"; "x"; "-d"] (Some file_bad_id)
     = fail (Some file_bad_id) (line ("Unknown flag: " ++ "-d")).
Proof.
  assert (Hat : add_at ["x"; "-d"] ["-d"] "M" None ["x"]).
  { apply (add_at_word _ "x" ["-d"] "M" None []); [|reflexivity].
    apply add_at_start. }
  exact (conj Hat
    (proj2 (add_flag_errors "tt" "-d" _ [] "M" None ["x"] (Some file_bad_id) Hat)
       eq_refl (or_introl eq_refl))).
Defined.

Lemma not_HML_cases (p : ascii) :
  not_HML p = false -> p = "H"%char \/ p = "M"%char \/ p = "L"%char.
Proof.
  unfold not_HML. intros H.
  destruct (Ascii.eqb_spec p "H"); [now left|].
  destruct (Ascii.eqb_spec p "M"); [now right; left|].
  destruct (Ascii.eqb_spec p "L"); [now right; right|].
  discriminate H.
Qed.

(** What [add] has read when its loop goes on: a priority among H, M
    and L, and no due date or a valid one. *)
Lemma add_at_inv (args rest : list string) (pr : ascii) (du : option string)
    (parts : list string) :
  add_at args rest pr du parts ->
  not_HML pr = false
  /\ match du with None => True | Some d => is_valid_date d = true end.
Proof.
  induction 1 as [| a rest pr du parts _ IH Hw
                  | val rest pr du parts _ IH Hp
                  | val rest pr du parts _ IH Hd].
  - split; [reflexivity | exact I].
  - exact IH.
  - split; [exact Hp | apply IH].
  - split; [apply IH | exact Hd].
Qed.

Lemma blank_chars (c : ascii) :
  mem_char c blanks = false -> c <> LF /\ c <> CR.
Proof.
  intros H. split; intros ->; discriminate H.
Qed.

Lemma encode_field_nonblank (c : ascii) (t : string) :
  mem_char c blanks = false -> encode_field (String c t) <> "".
Proof.
  intros Hc. destruct (blank_chars c Hc) as [Hlf Hcr].
  unfold encode_field. cbn [replace_char].
  destruct (Ascii.eqb_spec c SEP) as [-> | _].
  - cbn. discriminate.
  - cbn [remove_char]. destruct (Ascii.eqb_spec c LF); [contradiction|].
    cbn [remove_char]. destruct (Ascii.eqb_spec c CR); [contradiction|].
    discriminate.
Qed.

(** X22.  A task that [add] has written is there on the next run.  When
    the loop of [add] ends with the title parts [parts] and their
    joined, trimmed title is not empty, on a store that loads: [add]
    exits with 0, and [load_tasks] then returns the tasks it returns
    after any rewriting of the store, followed by the new task, which
    has the id of [next_id], the done flag unset, the priority and due
    date read from the flags and the encoded title. *)
Theorem add_then_load (prog : string) (args : list string) (pr : ascii)
    (du : option string) (parts : list string) (file : option string)
    (v : list Task) :
  add_at args [] pr du parts ->
  trim (String.concat " " parts) <> "" ->
  load_tasks file = Some v ->
  exit_status (main (prog :: "add" :: args) file) = Exit 0
  /\ load_tasks (file_after (main (prog :: "add" :: args) file))
     = Some (map stored (filter titled v)
             ++ [mkTask (next_id v) false pr du
                   (encode_field (trim (String.concat " " parts)))])%list.
Proof.
  intros Hat Htitle Hload.
  assert (Hparts : parts <> []) by (intros ->; now apply Htitle).
  rewrite (proj2 (add_title prog args pr du parts file Hat) Hparts v Hload).
  cbn [exit_status file_after]. split; [reflexivity|].
  set (t := mkTask (next_id v) false pr du (trim (String.concat " " parts))).
  destruct (add_at_inv _ _ _ _ _ Hat) as [Hpr Hdu].
  assert (Ht : fields_ok t).
  { split; [apply wrap_int_in_int|]. unfold plain_fields, t. cbn [priority due].
    split; [|split].
    - destruct (not_HML_cases pr Hpr) as [-> | [-> | ->]]; discriminate.
    - destruct (not_HML_cases pr Hpr) as [-> | [-> | ->]]; discriminate.
    - destruct du as [d|]; [now apply valid_date_storable | exact I]. }
  assert (Htitled : titled t = true).
  { unfold titled, t. cbn [title].
    destruct (trim_first _ Htitle) as [c [r [-> Hc]]].
    apply negb_true_iff, String.eqb_neq. now apply encode_field_nonblank. }
  rewrite load_save.
  - rewrite filter_app, map_app. cbn [filter]. rewrite Htitled. reflexivity.
  - apply Forall_app. split; [exact (load_tasks_fields_ok file v Hload)|].
    now constructor.
Qed.

Lemma add_then_load_witness :
  add_at ["buy"; "milk"] [] "M" None ["buy"; "milk"]
  /\ trim (String.concat " " ["buy"; "milk"]) <> ""
  /\ load_tasks (Some file_six_fields) = Some [task_untitled]
  /\ load_tasks (file_after (main ["tt"; "add"; "buy"; "milk"]
                               (Some file_six_fields)))
     = Some (map stored (filter titled [task_untitled])
             ++ [mkTask (next_id [task_untitled]) false "M" None
                   (encode_field (trim (String.concat " " ["buy"; "milk"])))])%list.
Proof.
  assert (Hat : add_at ["buy"; "milk"] [] "M" None ["buy"; "milk"]).
  { apply (add_at_word _ "milk" [] "M" None ["buy"]); [|reflexivity].
    apply (add_at_word _ "buy" ["milk"] "M" None []); [|reflexivity].
    apply add_at_start. }
  assert (H2 : trim (String.concat " " ["buy"; "milk"]) <> "")
    by (vm_compute; discriminate).
  assert (H3 : load_tasks (Some file_six_fields) = Some [task_untitled])
    by (vm_compute; reflexivity).
  exact (conj Hat (conj H2 (conj H3
    (proj2 (add_then_load "tt" _ "M" None _ _ _ Hat H2 H3))))).
Defined.
